(** * The heartbeat-history bucketizer of the Uptime Kuma panel

    A shallow embedding of [buildHistorySegments]
    (src/components/sections/UptimeKuma.tsx, lines 228-246) and of the
    JavaScript array primitives it is written with, followed by the
    properties of the downsampling that the specification states. *)

From Stdlib Require Import ZArith List Bool Ascii String Lia.
From Stdlib Require Import Permutation Sorted.
Import ListNotations.

Local Open Scope Z_scope.

(** ** Data model *)

(** [interface Heartbeat] (lines 68-78).  The numeric fields are JavaScript
    numbers; the bucketizer never computes with them, so they are carried
    as integers.  [time] is the raw string received from the service. *)
Module Heartbeat.
Record t : Type := Build {
  id : Z;
  monitor_id : Z;
  status : Z;
  msg : string;
  time : string;
  ping : Z;
  duration : Z;
  down_count : Z;
  important : Z
}.
End Heartbeat.

(** A slot of the history strip.  The source builds it by indexing an
    array, so its static type is [Heartbeat | undefined]; [None] is
    [undefined], the value the renderer shows as "no data". *)
Definition Segment : Type := option Heartbeat.t.

(** How a call completes.  JavaScript code either returns a value or
    throws; [InvalidInput] is the condition named by the specification. *)
Inductive Exception : Type :=
| InvalidInput
| TypeError
| RangeError.

Inductive Completion (A : Type) : Type :=
| Returned (value : A)
| Thrown (e : Exception).

Arguments Returned {A} value.
Arguments Thrown {A} e.

(** ** JavaScript array primitives used by the source *)

Module JS.
Section Arrays.
Context {A : Type}.

(** [arr.length] *)
Definition length (arr : list A) : Z := Z.of_nat (List.length arr).

(** [arr[i]]: [undefined] outside [0 .. length-1]. *)
Definition get (arr : list A) (i : Z) : option A :=
  if i <? 0 then None else nth_error arr (Z.to_nat i).

(** The index clamping shared by both arguments of [slice]: a negative
    index counts from the end, and the result is kept in [0 .. len]. *)
Definition relative (len i : Z) : Z :=
  if i <? 0 then Z.max (len + i) 0 else Z.min i len.

(** [arr.slice(start)] *)
Definition slice_from (arr : list A) (start : Z) : list A :=
  skipn (Z.to_nat (relative (length arr) start)) arr.

(** [arr.slice(start, end)] *)
Definition slice (arr : list A) (start end_ : Z) : list A :=
  let k := relative (length arr) start in
  let final := relative (length arr) end_ in
  firstn (Z.to_nat (final - k)) (skipn (Z.to_nat k) arr).

(** [SortCompare]: the comparator's result, with [NaN] (here [None])
    read as [+0]. *)
Definition SortCompare (comparator : A -> A -> option Z) (x y : A) : Z :=
  match comparator x y with
  | Some v => v
  | None => 0
  end.

(** [arr.sort(comparator)] on a copy, as a stable insertion sort: an
    element moves right only past the elements it compares strictly
    greater than.  For a consistent comparator every conforming engine
    returns this list (the sort is stable since ES2019); for an
    inconsistent one (possible only when some comparison is [NaN] and
    some is not) the language leaves the order to the engine, and this
    is one admissible choice. *)
Fixpoint insert (comparator : A -> A -> option Z) (x : A) (arr : list A)
  : list A :=
  match arr with
  | [] => [x]
  | y :: rest =>
      if 0 <? SortCompare comparator x y
      then y :: insert comparator x rest
      else x :: arr
  end.

Definition sort (comparator : A -> A -> option Z) (arr : list A) : list A :=
  fold_right (insert comparator) [] arr.
End Arrays.

(** [Array.from({ length: size }, (_, index) => f(index))]: a length
    that is not positive gives the empty array. *)
Definition from {B : Type} (size : Z) (f : Z -> B) : list B :=
  map (fun index => f (Z.of_nat index)) (seq 0 (Z.to_nat size)).

(** [Math.ceil(n / size)] for integers with [size <> 0].  The quotient
    of two integers below 2^53 is never rounded onto an integer it does
    not equal, so the floating-point result is the exact ceiling.  For
    [size = 0] JavaScript gives [Infinity] (or [NaN]); every use below
    that depends on the value assumes [0 < size]. *)
Definition ceil_div (n size : Z) : Z := - ((- n) / size).
End JS.

(** ** An instance of the date parser

    [new Date(s).getTime()] is left to the engine except on the date-time
    format of the language standard.  [isoTime] reads the full UTC form
    of that format, [YYYY-MM-DDTHH:mm:ss.sssZ] with a four-digit year (what
    [toISOString] prints), and is [None] ([NaN]) on every other string.  It
    instantiates the parser in the examples; the theorems hold for every
    parser. *)
Module IsoDate.
Definition digit (c : ascii) : option Z :=
  let n := Z.of_N (N_of_ascii c) in
  if (48 <=? n) && (n <=? 57) then Some (n - 48) else None.

(** Reads exactly [k] digits. *)
Fixpoint number (k : nat) (acc : Z) (cs : list ascii)
  : option (Z * list ascii) :=
  match k with
  | O => Some (acc, cs)
  | S k' =>
      match cs with
      | c :: rest =>
          match digit c with
          | Some d => number k' (10 * acc + d) rest
          | None => None
          end
      | [] => None
      end
  end.

Definition expect (c : ascii) (cs : list ascii) : option (list ascii) :=
  match cs with
  | c' :: rest => if Ascii.eqb c c' then Some rest else None
  | [] => None
  end.

Definition isLeap (y : Z) : bool :=
  ((y mod 4 =? 0) && negb (y mod 100 =? 0)) || (y mod 400 =? 0).

Definition daysInMonth (y m : Z) : Z :=
  if m =? 2 then (if isLeap y then 29 else 28)
  else if (m =? 4) || (m =? 6) || (m =? 9) || (m =? 11) then 30
  else 31.

(** Days from 1970-01-01 to the given civil date. *)
Definition daysFromCivil (y m d : Z) : Z :=
  let y' := if m <=? 2 then y - 1 else y in
  let era := y' / 400 in
  let yoe := y' - era * 400 in
  let mp := (m + 9) mod 12 in
  let doy := (153 * mp + 2) / 5 + d - 1 in
  let doe := yoe * 365 + yoe / 4 - yoe / 100 + doy in
  era * 146097 + doe - 719468.

Definition bind {X Y : Type} (o : option X) (k : X -> option Y) : option Y :=
  match o with
  | Some x => k x
  | None => None
  end.

Notation "' p <- o ;; k" := (bind o (fun p => k))
  (at level 61, p pattern, o at next level, right associativity).

Definition parse (cs : list ascii) : option Z :=
  ' (y, cs) <- number 4 0 cs ;;
  ' cs <- expect "-" cs ;;
  ' (m, cs) <- number 2 0 cs ;;
  ' cs <- expect "-" cs ;;
  ' (d, cs) <- number 2 0 cs ;;
  ' cs <- expect "T" cs ;;
  ' (h, cs) <- number 2 0 cs ;;
  ' cs <- expect ":" cs ;;
  ' (mi, cs) <- number 2 0 cs ;;
  ' cs <- expect ":" cs ;;
  ' (s, cs) <- number 2 0 cs ;;
  ' cs <- expect "." cs ;;
  ' (ms, cs) <- number 3 0 cs ;;
  ' cs <- expect "Z" cs ;;
  match cs with
  | [] =>
      if (1 <=? m) && (m <=? 12) && (1 <=? d) && (d <=? daysInMonth y m)
         && (h <=? 23) && (mi <=? 59) && (s <=? 59)
      then Some ((((daysFromCivil y m d * 24 + h) * 60 + mi) * 60 + s)
                 * 1000 + ms)
      else None
  | _ :: _ => None
  end.

Definition isoTime (s : string) : option Z := parse (list_ascii_of_string s).
End IsoDate.

(** ** The bucketizer *)

Section Bucketizer.
(** [s => new Date(s).getTime()], with [None] for [NaN]. *)
Variable getTime : string -> option Z.

(** The comparator of line 233,
    [(a, b) => new Date(a.time).getTime() - new Date(b.time).getTime()].
    Two time values differ by an integer whose sign survives rounding,
    and the sort reads nothing but the sign. *)
Definition byTime (a b : Heartbeat.t) : option Z :=
  match getTime (Heartbeat.time a), getTime (Heartbeat.time b) with
  | Some ta, Some tb => Some (ta - tb)
  | _, _ => None
  end.

(** Lines 232-234: [const sorted = [...heartbeats].sort(...)]. *)
Definition sorted (heartbeats : list Heartbeat.t) : list Heartbeat.t :=
  JS.sort byTime heartbeats.

(** Line 235: [const chunkSize = Math.ceil(sorted.length / size)]. *)
Definition chunkSize (heartbeats : list Heartbeat.t) (size : Z) : Z :=
  JS.ceil_div (JS.length (sorted heartbeats)) size.

(** Line 236:
    [const startIndex = Math.max(0, sorted.length - chunkSize * size)]. *)
Definition startIndex (heartbeats : list Heartbeat.t) (size : Z) : Z :=
  Z.max 0 (JS.length (sorted heartbeats) - chunkSize heartbeats size * size).

(** Line 237: [const recent = sorted.slice(startIndex)]. *)
Definition recent (heartbeats : list Heartbeat.t) (size : Z)
  : list Heartbeat.t :=
  JS.slice_from (sorted heartbeats) (startIndex heartbeats size).

(** Line 238: [const lastHeartbeat = recent[recent.length - 1]]. *)
Definition lastHeartbeat (heartbeats : list Heartbeat.t) (size : Z)
  : Segment :=
  JS.get (recent heartbeats size) (JS.length (recent heartbeats size) - 1).

(** Line 240:
    [recent.slice(index * chunkSize, (index + 1) * chunkSize)]. *)
Definition chunk (heartbeats : list Heartbeat.t) (size index : Z)
  : list Heartbeat.t :=
  JS.slice (recent heartbeats size)
    (index * chunkSize heartbeats size)
    ((index + 1) * chunkSize heartbeats size).

(** Lines 239-245, the callback of [Array.from]. *)
Definition segment (heartbeats : list Heartbeat.t) (size index : Z)
  : Segment :=
  let chunk := chunk heartbeats size index in
  if negb (JS.length chunk =? 0)
  then JS.get chunk (JS.length chunk - 1)
  else lastHeartbeat heartbeats size.

(** Lines 228-246. *)
Definition buildHistorySegments (heartbeats : list Heartbeat.t) (size : Z)
  : list Segment :=
  if JS.length heartbeats =? 0
  then []
  else JS.from size (segment heartbeats size).

(** The call as a completion.  No step of the body can throw: an
    unparseable string makes an invalid date whose [getTime()] is [NaN],
    the subtraction of [NaN] is [NaN], the sort reads [NaN] as [+0],
    [slice] clamps its indices, and indexing an array out of range
    yields [undefined]. *)
Definition buildHistorySegments_call
  (heartbeats : list Heartbeat.t) (size : Z) : Completion (list Segment) :=
  Returned (buildHistorySegments heartbeats size).

(** [a] is not later than [b]; both timestamps must parse. *)
Definition notLater (a b : Heartbeat.t) : Prop :=
  match getTime (Heartbeat.time a), getTime (Heartbeat.time b) with
  | Some ta, Some tb => ta <= tb
  | _, _ => False
  end.

(** The same on the slots of the strip; an [undefined] slot is not
    ordered with anything. *)
Definition segmentNotLater (s1 s2 : Segment) : Prop :=
  match s1, s2 with
  | Some a, Some b => notLater a b
  | _, _ => False
  end.

(** Every timestamp of the series parses. *)
Definition wellTimed (heartbeats : list Heartbeat.t) : Prop :=
  Forall (fun h => getTime (Heartbeat.time h) <> None) heartbeats.

(** Samples that share a time value are the same sample. *)
Definition timeDetermines (heartbeats : list Heartbeat.t) : Prop :=
  forall a b, In a heartbeats -> In b heartbeats ->
    getTime (Heartbeat.time a) = getTime (Heartbeat.time b) -> a = b.

(** Some timestamp of the series does not parse. *)
Definition malformed (heartbeats : list Heartbeat.t) : Prop :=
  Exists (fun h => getTime (Heartbeat.time h) = None) heartbeats.
End Bucketizer.

(** The default value of the parameter [size] (line 228). *)
Definition defaultSize : Z := 24.

(** ** Sample data for the examples *)

Module Samples.
(** A heartbeat with the given id, status and time. *)
Definition beat (id status : Z) (time : string) : Heartbeat.t :=
  Heartbeat.Build id 1 status "200 - OK" time 42 0 0 0.

Definition up1 := beat 1 1 "2024-01-01T00:00:01.000Z".
Definition down2 := beat 2 0 "2024-01-01T00:00:02.000Z".
Definition up3 := beat 3 1 "2024-01-01T00:00:03.000Z".
Definition up4 := beat 4 1 "2024-01-01T00:00:04.000Z".
Definition up5 := beat 5 1 "2024-01-01T00:00:05.000Z".

(** Two different samples taken at the same instant. *)
Definition tieUp := beat 6 1 "2024-01-01T00:00:09.000Z".
Definition tieDown := beat 7 0 "2024-01-01T00:00:09.000Z".

(** A sample whose time is not a date. *)
Definition broken := beat 8 1 "not a date".

(** Shuffled series of three and of five samples. *)
Definition three := [up3; up1; down2].
Definition five := [up3; up1; down2; up5; up4].
End Samples.

(** ** JavaScript string primitives used by the source

    Strings are byte strings.  Every pattern the source searches for is
    ASCII, and no byte of a multi-byte character is an ASCII byte, so the
    searches below find what the source finds. *)

Module Str.
Local Open Scope string_scope.

(** [\d] *)
Definition isDigit (c : ascii) : bool :=
  let n := N_of_ascii c in ((48 <=? n) && (n <=? 57))%N.

(** [\w]: a letter, a digit or the underscore. *)
Definition isWord (c : ascii) : bool :=
  let n := N_of_ascii c in
  (isDigit c
   || ((65 <=? n) && (n <=? 90)) || ((97 <=? n) && (n <=? 122))
   || (n =? 95))%N.

(** [s.includes(pattern)] *)
Fixpoint includes (s pattern : string) : bool :=
  prefix pattern s
  || match s with
     | EmptyString => false
     | String _ rest => includes rest pattern
     end.

(** [s.replace(from, to)] for one-character strings [from] and [to]:
    only the first occurrence is replaced. *)
Fixpoint replaceFirst (from to : ascii) (s : string) : string :=
  match s with
  | EmptyString => EmptyString
  | String c rest =>
      if Ascii.eqb c from then String to rest
      else String c (replaceFirst from to rest)
  end.

(** [s.replace(/\/$/, "")]: a slash that ends the string is dropped. *)
Fixpoint stripTrailingSlash (s : string) : string :=
  match s with
  | EmptyString => EmptyString
  | String c rest =>
      match rest with
      | EmptyString => if Ascii.eqb c "/" then EmptyString else s
      | String _ _ => String c (stripTrailingSlash rest)
      end
  end.

(** The rest of [s] after the prefix [p], when [s] starts with [p]. *)
Fixpoint stripPrefix (p s : string) : option string :=
  match p with
  | EmptyString => Some s
  | String a p' =>
      match s with
      | EmptyString => None
      | String b s' => if Ascii.eqb a b then stripPrefix p' s' else None
      end
  end.

(** [[^/]*] up to the end of the string. *)
Fixpoint slashFree (s : string) : bool :=
  match s with
  | EmptyString => true
  | String c rest => negb (Ascii.eqb c "/") && slashFree rest
  end.

(** The number of slashes of a string. *)
Fixpoint slashes (s : string) : nat :=
  match s with
  | EmptyString => 0
  | String c rest => ((if Ascii.eqb c "/" then 1 else 0) + slashes rest)%nat
  end.
End Str.

(** ** The two endpoints of a status page (lines 117-130) *)

(** How an asynchronous step settles; [throw new Error(m)] inside an
    [async] function rejects with reason [m]. *)
Inductive Settled (A : Type) : Type :=
| Fulfilled (value : A)
| Rejected (reason : string).

Arguments Fulfilled {A} value.
Arguments Rejected {A} reason.

Module Endpoints.
Local Open Scope string_scope.

Definition statusPath : string := "/api/status-page/".
Definition heartbeatPath : string := "/api/status-page/heartbeat/".

(** [/\/api\/status-page\/([^/]+)$/] tried at the start of [s]: the
    captured group when it matches. *)
Definition slugAt (s : string) : option string :=
  match Str.stripPrefix statusPath s with
  | Some slug =>
      match slug with
      | EmptyString => None
      | String _ _ => if Str.slashFree slug then Some slug else None
      end
  | None => None
  end.

(** Lines 122-125,
    [s.replace(/\/api\/status-page\/([^/]+)$/,
               "/api/status-page/heartbeat/$1")]:
    the pattern is tried at each position from the left; a match runs to
    the end of the string, so the replacement ends the result.  Without a
    match the string is returned as it is. *)
Fixpoint toHeartbeat (s : string) : string :=
  match slugAt s with
  | Some slug => heartbeatPath ++ slug
  | None =>
      match s with
      | EmptyString => EmptyString
      | String c rest => String c (toHeartbeat rest)
      end
  end.

(** Line 117. *)
Definition normalizedUrl (uptimeKumaApiUrl : string) : string :=
  Str.stripTrailingSlash uptimeKumaApiUrl.

(** Lines 118-120. *)
Definition statusUrl (uptimeKumaApiUrl : string) : string :=
  let normalizedUrl := normalizedUrl uptimeKumaApiUrl in
  if Str.includes normalizedUrl "/api/status-page/"
  then normalizedUrl
  else normalizedUrl ++ "/api/status-page/0".

(** Lines 121-126. *)
Definition heartbeatUrl (uptimeKumaApiUrl : string) : string :=
  let normalizedUrl := normalizedUrl uptimeKumaApiUrl in
  if Str.includes normalizedUrl "/api/status-page/"
  then toHeartbeat normalizedUrl
  else normalizedUrl ++ "/api/status-page/heartbeat/0".

(** Lines 117-130: the pair of URLs to fetch, or the error thrown when
    they coincide. *)
Definition derive (uptimeKumaApiUrl : string) : Settled (string * string) :=
  if String.eqb (statusUrl uptimeKumaApiUrl) (heartbeatUrl uptimeKumaApiUrl)
  then Rejected "Invalid Uptime Kuma status page URL"
  else Fulfilled (statusUrl uptimeKumaApiUrl, heartbeatUrl uptimeKumaApiUrl).
End Endpoints.

(** ** Status lookups (lines 168-211)

    A [switch] compares with strict equality, case by case in the order
    written. *)

Module Status.
Local Open Scope string_scope.

(** Lines 168-181. *)
Definition getStatusColor (status : Z) : string :=
  if (status =? 1)%Z then "bg-green-500"
  else if (status =? 0)%Z then "bg-red-500"
  else if (status =? 2)%Z then "bg-yellow-500"
  else if (status =? 3)%Z then "bg-gray-500"
  else "bg-gray-400".

(** Lines 183-196. *)
Definition getStatusColorName (status : Z) : string :=
  if (status =? 1)%Z then "green"
  else if (status =? 0)%Z then "red"
  else if (status =? 2)%Z then "yellow"
  else if (status =? 3)%Z then "gray"
  else "gray".

(** Lines 198-211. *)
Definition getStatusText (status : Z) : string :=
  if (status =? 1)%Z then "正常"
  else if (status =? 0)%Z then "异常"
  else if (status =? 2)%Z then "检测中"
  else if (status =? 3)%Z then "维护中"
  else "未知".
End Status.

(** ** The status code of a message (lines 213-217) *)

Module StatusCode.
Local Open Scope string_scope.

(** Whether the string starts with a word character. *)
Definition startsWithWord (s : string) : bool :=
  match s with
  | EmptyString => false
  | String c _ => Str.isWord c
  end.

(** [/\b\d{3}\b/] tried at the start of [s], where [before] is the
    character in front of [s], if any: three digits, no word character
    in front and none behind. *)
Definition codeAt (before : option ascii) (s : string) : option string :=
  match s with
  | String a (String b (String c rest)) =>
      if negb (match before with Some p => Str.isWord p | None => false end)
         && Str.isDigit a && Str.isDigit b && Str.isDigit c
         && negb (startsWithWord rest)
      then Some (String a (String b (String c EmptyString)))
      else None
  | _ => None
  end.

(** [message.match(/\b\d{3}\b/)]: the leftmost match, if any. *)
Fixpoint firstCode (before : option ascii) (s : string) : option string :=
  match codeAt before s with
  | Some code => Some code
  | None =>
      match s with
      | EmptyString => None
      | String c rest => firstCode (Some c) rest
      end
  end.

(** Lines 213-217; [None] is a message that is [undefined]. *)
Definition getStatusCode (message : option string) : string :=
  match message with
  | None => "-"
  | Some EmptyString => "-"
  | Some message =>
      match firstCode None message with
      | Some code => code
      | None => message
      end
  end.

(** Three digits and nothing else. *)
Definition threeDigits (code : string) : Prop :=
  exists a b c,
    code = String a (String b (String c EmptyString))
    /\ Str.isDigit a = true /\ Str.isDigit b = true /\ Str.isDigit c = true.

(** Whether the string ends with a word character. *)
Fixpoint endsWithWord (s : string) : bool :=
  match s with
  | EmptyString => false
  | String c rest =>
      match rest with
      | EmptyString => Str.isWord c
      | String _ _ => endsWithWord rest
      end
  end.

(** No word character in front of what follows [pre], where [before] is
    the character in front of [pre], if any. *)
Definition clearBefore (before : option ascii) (pre : string) : bool :=
  match pre with
  | EmptyString =>
      negb (match before with Some p => Str.isWord p | None => false end)
  | String _ _ => negb (endsWithWord pre)
  end.

(** [code] stands alone between [pre] and [post]: three digits with no
    word character next to them on either side. *)
Definition standsAlone (pre code post : string) : Prop :=
  threeDigits code /\ endsWithWord pre = false /\ startsWithWord post = false.
End StatusCode.

(** ** The date handed to the formatter (lines 219-226) *)

Module FormatTime.
Local Open Scope string_scope.

(** [\d{2}$] *)
Definition twoDigitsOnly (s : string) : bool :=
  match s with
  | String a (String b EmptyString) => Str.isDigit a && Str.isDigit b
  | _ => false
  end.

(** [\d{2}:?\d{2}$] *)
Definition offsetDigits (s : string) : bool :=
  match s with
  | String d1 (String d2 tail) =>
      Str.isDigit d1 && Str.isDigit d2
      && (match tail with
          | String colon tail' => Ascii.eqb colon ":" && twoDigitsOnly tail'
          | EmptyString => false
          end
          || twoDigitsOnly tail)
  | _ => false
  end.

(** [/[zZ]|[+-]\d{2}:?\d{2}$/] tried at the start of [s]: a [z] or [Z]
    right here, or a sign, two digits, a colon or none, and two digits
    that end the string. *)
Definition zoneAt (s : string) : bool :=
  match s with
  | EmptyString => false
  | String c rest =>
      Ascii.eqb c "z" || Ascii.eqb c "Z"
      || ((Ascii.eqb c "+" || Ascii.eqb c "-") && offsetDigits rest)
  end.

(** Line 220: [/[zZ]|[+-]\d{2}:?\d{2}$/.test(timeStr)]. *)
Fixpoint hasTimeZone (timeStr : string) : bool :=
  zoneAt timeStr
  || match timeStr with
     | EmptyString => false
     | String _ rest => hasTimeZone rest
     end.

(** Lines 221-223. *)
Definition normalized (timeStr : string) : string :=
  if Str.includes timeStr "T"
  then timeStr
  else Str.replaceFirst " " "T" timeStr.

(** Line 224, the argument of [new Date(...)]. *)
Definition dateArgument (timeStr : string) : string :=
  if hasTimeZone timeStr
  then normalized timeStr
  else normalized timeStr ++ "Z".

(** Lines 219-226.  [getTime] is the engine's date parser and
    [toLocaleString] its rendering of a time value in the locale and
    zone of the host. *)
Definition formatTime (getTime : string -> option Z)
  (toLocaleString : option Z -> string) (timeStr : string) : string :=
  toLocaleString (getTime (dateArgument timeStr)).
End FormatTime.

(** The sample was taken at time value [t]. *)
Definition takenAt (getTime : string -> option Z) (t : Z) (h : Heartbeat.t)
  : bool :=
  match getTime (Heartbeat.time h) with
  | Some t' => t' =? t
  | None => false
  end.

(** ** One row of the table (lines 266-323) *)

Module TableRow.
Section WithParser.
Local Open Scope string_scope.

(** [s => new Date(s).getTime()], with [None] for [NaN]. *)
Variable getTime : string -> option Z.

(** Line 267: [heartbeatData.heartbeatList[monitor.id] || []], the
    lookup being [None] where the object has no such key. *)
Definition heartbeats (heartbeatList : Z -> option (list Heartbeat.t))
  (monitorId : Z) : list Heartbeat.t :=
  match heartbeatList monitorId with
  | Some list => list
  | None => []
  end.

(** Lines 268-270. *)
Definition sortedHeartbeats (heartbeats : list Heartbeat.t)
  : list Heartbeat.t :=
  JS.sort (byTime getTime) heartbeats.

(** Line 271. *)
Definition lastHeartbeat (heartbeats : list Heartbeat.t)
  : option Heartbeat.t :=
  JS.get (sortedHeartbeats heartbeats)
         (JS.length (sortedHeartbeats heartbeats) - 1).

(** Line 272: [lastHeartbeat ? lastHeartbeat.status : 2]. *)
Definition status (heartbeats : list Heartbeat.t) : Z :=
  match lastHeartbeat heartbeats with
  | Some hb => Heartbeat.status hb
  | None => 2
  end.

(** Line 273. *)
Definition historySegments (heartbeats : list Heartbeat.t) : list Segment :=
  buildHistorySegments getTime (sortedHeartbeats heartbeats) 24.

(** Line 283, the text of the status tag. *)
Definition tag (heartbeats : list Heartbeat.t) : string :=
  Status.getStatusText (status heartbeats) ++ "<"
  ++ Status.getStatusColorName (status heartbeats) ++ ">".

(** Line 289: [getStatusCode(lastHeartbeat?.msg)]. *)
Definition statusCode (heartbeats : list Heartbeat.t) : string :=
  StatusCode.getStatusCode
    (option_map Heartbeat.msg (lastHeartbeat heartbeats)).

(** Line 319, the colour class of a cell of the strip:
    [hb ? getStatusColor(hb.status) : "bg-gray-400"]. *)
Definition segmentClass (hb : Segment) : string :=
  match hb with
  | Some hb => Status.getStatusColor (Heartbeat.status hb)
  | None => "bg-gray-400"
  end.
End WithParser.
End TableRow.

(** ** Loading the data (lines 103-162) *)

Module Panel.
Section WithJson.
Local Open Scope string_scope.

(** What [res.json()] yields, and which of these values are truthy. *)
Variable Json : Type.
Variable truthy : Json -> bool.

(** The part of a [Response] that the component reads: [res.ok] and how
    [res.json()] settles. *)
Record Response : Type := {
  ok : bool;
  json : Settled Json
}.

(** The four [useState] cells (lines 103-106). *)
Record State : Type := {
  statusData : option Json;
  heartbeatData : option Json;
  loading : bool;
  error : option string
}.

(** The initial values passed to [useState]. *)
Definition initial : State :=
  {| statusData := None; heartbeatData := None;
     loading := true; error := None |}.

Definition setStatusData (v : option Json) (st : State) : State :=
  {| statusData := v; heartbeatData := heartbeatData st;
     loading := loading st; error := error st |}.

Definition setHeartbeatData (v : option Json) (st : State) : State :=
  {| statusData := statusData st; heartbeatData := v;
     loading := loading st; error := error st |}.

Definition setLoading (v : bool) (st : State) : State :=
  {| statusData := statusData st; heartbeatData := heartbeatData st;
     loading := v; error := error st |}.

Definition setError (v : option string) (st : State) : State :=
  {| statusData := statusData st; heartbeatData := heartbeatData st;
     loading := loading st; error := v |}.

(** Lines 117-142, the body of [try] up to the first state update:
    both documents, or the reason for which control reaches [catch].
    [fetch] says how the request for a URL settles.  When both requests
    are rejected the reason kept here is that of the first; the source
    only logs it. *)
Definition request (fetch : string -> Settled Response)
  (uptimeKumaApiUrl : string) : Settled (Json * Json) :=
  match Endpoints.derive uptimeKumaApiUrl with
  | Rejected reason => Rejected reason
  | Fulfilled (statusUrl, heartbeatUrl) =>
      match fetch statusUrl, fetch heartbeatUrl with
      | Rejected reason, _ => Rejected reason
      | Fulfilled _, Rejected reason => Rejected reason
      | Fulfilled statusRes, Fulfilled heartbeatRes =>
          if negb (ok statusRes) || negb (ok heartbeatRes)
          then Rejected "Failed to fetch Uptime Kuma data"
          else
            match json statusRes with
            | Rejected reason => Rejected reason
            | Fulfilled statusJson =>
                match json heartbeatRes with
                | Rejected reason => Rejected reason
                | Fulfilled heartbeatJson =>
                    Fulfilled (statusJson, heartbeatJson)
                end
            end
      end
  end.

(** Lines 114-153, one run of [fetchData] from start to end with no
    other update in between: the state updates of [try], [catch] and
    [finally] applied in order.  [console.error] only writes to the log
    and is left out. *)
Definition fetchData (fetch : string -> Settled Response)
  (uptimeKumaApiUrl : string) (st : State) : State :=
  let st := setLoading true st in
  let st :=
    match request fetch uptimeKumaApiUrl with
    | Fulfilled (statusJson, heartbeatJson) =>
        setError None
          (setHeartbeatData (Some heartbeatJson)
             (setStatusData (Some statusJson) st))
    | Rejected _ => setError (Some "Failed to load status data") st
    end in
  setLoading false st.

(** Whether a configured URL is truthy: present and not empty. *)
Definition configured (uptimeKumaApiUrl : option string) : bool :=
  match uptimeKumaApiUrl with
  | Some EmptyString => false
  | Some (String _ _) => true
  | None => false
  end.

(** Lines 108-155, the effect up to the first run of [fetchData]. *)
Definition onMount (fetch : string -> Settled Response)
  (uptimeKumaApiUrl : option string) (st : State) : State :=
  match uptimeKumaApiUrl with
  | Some (String c rest) => fetchData fetch (String c rest) st
  | _ => setLoading false st
  end.

(** Line 160: the component renders the table, rather than [null]. *)
Definition renders (uptimeKumaApiUrl : option string) (st : State) : bool :=
  negb (negb (configured uptimeKumaApiUrl)
        || loading st
        || match error st with
           | Some EmptyString => false
           | Some (String _ _) => true
           | None => false
           end
        || negb match statusData st with
                | Some data => truthy data
                | None => false
                end
        || negb match heartbeatData st with
                | Some data => truthy data
                | None => false
                end).
End WithJson.
End Panel.

(** ** Sample networks for the examples *)

Module Network.
(** Every request is answered [ok], with the URL as the document. *)
Definition online (url : string) : Settled (Panel.Response string) :=
  Fulfilled {| Panel.ok := true; Panel.json := Fulfilled url |}.

(** Every request is rejected. *)
Definition offline (url : string) : Settled (Panel.Response string) :=
  Rejected "Failed to fetch"%string.
End Network.

(** ** Facts about the array primitives *)

Module JSFacts.
Section Arrays.
Context {A : Type}.
Implicit Types (arr : list A) (i start : Z).

Lemma length_nonneg arr : 0 <= JS.length arr.
Proof. unfold JS.length. lia. Qed.

Lemma length_zero_iff arr : JS.length arr = 0 <-> arr = [].
Proof.
  unfold JS.length. destruct arr; simpl; split; intro H;
    try reflexivity; try discriminate; lia.
Qed.

Lemma get_nth arr i : 0 <= i -> JS.get arr i = nth_error arr (Z.to_nat i).
Proof.
  intro Hi. unfold JS.get.
  destruct (Z.ltb_spec i 0); [lia | reflexivity].
Qed.

Lemma get_In arr i x : JS.get arr i = Some x -> In x arr.
Proof.
  unfold JS.get. destruct (i <? 0); [discriminate |].
  apply nth_error_In.
Qed.

Lemma get_in_range arr i :
  0 <= i < JS.length arr -> exists x, JS.get arr i = Some x.
Proof.
  intros [Hlo Hhi]. rewrite get_nth by assumption.
  destruct (nth_error arr (Z.to_nat i)) as [x |] eqn:E.
  - now exists x.
  - apply nth_error_None in E. unfold JS.length in Hhi. lia.
Qed.

Lemma slice_from_zero arr : JS.slice_from arr 0 = arr.
Proof.
  unfold JS.slice_from, JS.relative. simpl.
  pose proof (length_nonneg arr).
  now replace (Z.to_nat (Z.min 0 (JS.length arr))) with 0%nat by lia.
Qed.

Lemma relative_nonneg arr i :
  0 <= i -> JS.relative (JS.length arr) i = Z.min i (JS.length arr).
Proof.
  intro Hi. unfold JS.relative.
  destruct (Z.ltb_spec i 0); [lia | reflexivity].
Qed.

Lemma slice_length arr start (end_ : Z) :
  0 <= start <= end_ ->
  JS.length (JS.slice arr start end_)
  = Z.min end_ (JS.length arr) - Z.min start (JS.length arr).
Proof.
  intros [Hs He]. unfold JS.slice.
  rewrite !relative_nonneg by lia.
  unfold JS.length. rewrite length_firstn, length_skipn. lia.
Qed.

(** The last element of a slice that is not empty is the element of
    the array just before the clamped end. *)
Lemma slice_last arr start (end_ : Z) :
  0 <= start < end_ -> start < JS.length arr ->
  JS.get (JS.slice arr start end_)
         (JS.length (JS.slice arr start end_) - 1)
  = JS.get arr (Z.min end_ (JS.length arr) - 1).
Proof.
  intros [Hs He] Hn.
  rewrite slice_length by lia.
  rewrite !get_nth by lia.
  unfold JS.slice. rewrite !relative_nonneg by lia.
  rewrite nth_error_firstn, nth_error_skipn.
  match goal with |- (if ?b then _ else _) = _ => destruct b eqn:E end.
  - f_equal. lia.
  - apply Nat.ltb_ge in E. lia.
Qed.

Lemma insert_Permutation cmp (x : A) arr :
  Permutation (JS.insert cmp x arr) (x :: arr).
Proof.
  induction arr as [| y rest IH]; simpl.
  - reflexivity.
  - destruct (0 <? JS.SortCompare cmp x y).
    + rewrite IH. apply perm_swap.
    + reflexivity.
Qed.

Lemma sort_Permutation cmp arr : Permutation (JS.sort cmp arr) arr.
Proof.
  induction arr as [| x rest IH]; simpl.
  - reflexivity.
  - rewrite insert_Permutation. now apply perm_skip.
Qed.

Lemma sort_length cmp arr : JS.length (JS.sort cmp arr) = JS.length arr.
Proof.
  unfold JS.length. f_equal.
  apply Permutation_length, sort_Permutation.
Qed.

(** A comparator that answers [NaN] throughout leaves the array as it
    is: every pair is a tie and the sort is stable. *)
Lemma sort_all_NaN cmp arr :
  (forall x y, cmp x y = None) -> JS.sort cmp arr = arr.
Proof.
  intro Hnan. induction arr as [| x rest IH]; simpl.
  - reflexivity.
  - fold (JS.sort cmp rest). rewrite IH.
    destruct rest as [| y rest']; simpl; [reflexivity |].
    unfold JS.SortCompare. now rewrite Hnan.
Qed.
End Arrays.

Section From.
Context {B : Type}.
Implicit Types (f : Z -> B) (size i : Z).

Lemma from_nonpositive size f : size <= 0 -> JS.from size f = [].
Proof.
  intro H. unfold JS.from.
  now replace (Z.to_nat size) with 0%nat by lia.
Qed.

Lemma from_length size f : JS.length (JS.from size f) = Z.max 0 size.
Proof.
  unfold JS.length, JS.from. rewrite length_map, length_seq. lia.
Qed.

Lemma from_get size f i :
  0 <= i < size -> JS.get (JS.from size f) i = Some (f i).
Proof.
  intros [Hlo Hhi]. rewrite get_nth by assumption.
  unfold JS.from. rewrite nth_error_map, nth_error_seq.
  destruct (Nat.ltb_spec (Z.to_nat i) (Z.to_nat size)); [| lia].
  simpl. f_equal. f_equal. lia.
Qed.

Lemma from_In size f (x : B) :
  In x (JS.from size f) -> exists i, 0 <= i < size /\ x = f i.
Proof.
  unfold JS.from. intro H. apply in_map_iff in H.
  destruct H as (k & Hk & Hin). apply in_seq in Hin.
  exists (Z.of_nat k). split; [lia | now symmetry].
Qed.

(** An array built by [Array.from] is ordered as soon as its generating
    function is. *)
Lemma from_StronglySorted (R : B -> B -> Prop) size f :
  (forall i j, 0 <= i < j -> j < size -> R (f i) (f j)) ->
  StronglySorted R (JS.from size f).
Proof.
  intro Hmono. unfold JS.from.
  assert (G : forall k a,
    (Z.of_nat a + Z.of_nat k <= Z.max 0 size) ->
    StronglySorted R
      (map (fun index => f (Z.of_nat index)) (seq a k))).
  { induction k as [| k IH]; intros a Hak; simpl.
    - constructor.
    - constructor.
      + apply IH. lia.
      + apply Forall_forall. intros x Hx.
        apply in_map_iff in Hx. destruct Hx as (j & <- & Hj).
        apply in_seq in Hj. apply Hmono; lia. }
  apply G. lia.
Qed.
End From.

Lemma ceil_div_bounds n size :
  0 < size -> (JS.ceil_div n size - 1) * size < n <= JS.ceil_div n size * size.
Proof.
  intro Hs. unfold JS.ceil_div.
  pose proof (Z.div_mod (- n) size ltac:(lia)) as Hdm.
  pose proof (Z.mod_pos_bound (- n) size Hs) as Hb.
  nia.
Qed.
End JSFacts.

(** ** Facts about the bucketizer *)

Section BucketizerFacts.
Variable getTime : string -> option Z.

Implicit Types (heartbeats : list Heartbeat.t) (size index : Z).

(** *** The order on samples *)

Lemma notLater_refl a :
  getTime (Heartbeat.time a) <> None -> notLater getTime a a.
Proof.
  unfold notLater.
  destruct (getTime (Heartbeat.time a)); [lia | congruence].
Qed.

Lemma notLater_trans a b c :
  notLater getTime a b -> notLater getTime b c -> notLater getTime a c.
Proof.
  unfold notLater.
  destruct (getTime (Heartbeat.time a)), (getTime (Heartbeat.time b)),
    (getTime (Heartbeat.time c)); try tauto; lia.
Qed.

Lemma notLater_antisym a b :
  notLater getTime a b -> notLater getTime b a ->
  getTime (Heartbeat.time a) = getTime (Heartbeat.time b).
Proof.
  unfold notLater.
  destruct (getTime (Heartbeat.time a)), (getTime (Heartbeat.time b));
    try tauto.
  intros. f_equal. lia.
Qed.

(** *** The sort orders a series whose timestamps all parse *)

Lemma insert_StronglySorted x arr :
  getTime (Heartbeat.time x) <> None -> wellTimed getTime arr ->
  StronglySorted (notLater getTime) arr ->
  StronglySorted (notLater getTime) (JS.insert (byTime getTime) x arr).
Proof.
  intros Hx Hwt Hs.
  induction arr as [| y rest IH]; simpl.
  - repeat constructor.
  - inversion Hwt as [| ? ? Hy Hrest]; subst.
    apply StronglySorted_inv in Hs. destruct Hs as [Hs Hall].
    unfold JS.SortCompare, byTime.
    destruct (getTime (Heartbeat.time x)) as [tx |] eqn:Ex; [| congruence].
    destruct (getTime (Heartbeat.time y)) as [ty |] eqn:Ey; [| congruence].
    destruct (Z.ltb_spec 0 (tx - ty)) as [Hgt | Hle].
    + constructor.
      * apply IH; assumption.
      * eapply Permutation_Forall.
        { symmetry. apply JSFacts.insert_Permutation. }
        constructor; [| assumption].
        unfold notLater. rewrite Ex, Ey. lia.
    + assert (Hxy : notLater getTime x y).
      { unfold notLater. rewrite Ex, Ey. lia. }
      constructor.
      * now constructor.
      * constructor; [assumption |].
        eapply Forall_impl; [| exact Hall].
        intros z Hz. now apply notLater_trans with y.
Qed.

Lemma sorted_Permutation heartbeats :
  Permutation (sorted getTime heartbeats) heartbeats.
Proof. apply JSFacts.sort_Permutation. Qed.

Lemma sorted_length heartbeats :
  JS.length (sorted getTime heartbeats) = JS.length heartbeats.
Proof. apply JSFacts.sort_length. Qed.

Lemma sorted_StronglySorted heartbeats :
  wellTimed getTime heartbeats ->
  StronglySorted (notLater getTime) (sorted getTime heartbeats).
Proof.
  unfold sorted, JS.sort.
  induction heartbeats as [| x rest IH]; intro Hwt; simpl.
  - constructor.
  - inversion Hwt as [| ? ? Hx Hrest]; subst.
    apply insert_StronglySorted.
    + assumption.
    + eapply Permutation_Forall; [| exact Hrest].
      symmetry. apply JSFacts.sort_Permutation.
    + now apply IH.
Qed.

Lemma StronglySorted_nth_error {X : Type} (R : X -> X -> Prop) (l : list X) :
  StronglySorted R l ->
  forall p q a b, (p < q)%nat ->
    nth_error l p = Some a -> nth_error l q = Some b -> R a b.
Proof.
  induction 1 as [| x l Hs IH Hall]; intros p q a b Hpq Hp Hq.
  - destruct p; discriminate.
  - destruct q as [| q]; [lia |]. simpl in Hq.
    destruct p as [| p]; simpl in Hp.
    + injection Hp as <-.
      rewrite Forall_forall in Hall. apply Hall.
      now apply nth_error_In with q.
    + apply IH with p q; [lia | assumption | assumption].
Qed.

(** Later positions of the sorted series hold later samples. *)
Lemma sorted_get_mono heartbeats p q a b :
  wellTimed getTime heartbeats -> 0 <= p <= q ->
  JS.get (sorted getTime heartbeats) p = Some a ->
  JS.get (sorted getTime heartbeats) q = Some b ->
  notLater getTime a b.
Proof.
  intros Hwt [Hp Hpq] Ha Hb.
  destruct (Z.eq_dec p q) as [-> | Hne].
  - assert (a = b) as <- by congruence.
    apply notLater_refl.
    apply JSFacts.get_In in Ha.
    apply (Permutation_in _ (sorted_Permutation heartbeats)) in Ha.
    unfold wellTimed in Hwt. rewrite Forall_forall in Hwt.
    now apply Hwt.
  - rewrite JSFacts.get_nth in Ha, Hb by lia.
    apply (StronglySorted_nth_error _ _ (sorted_StronglySorted _ Hwt)
             (Z.to_nat p) (Z.to_nat q)); [lia | assumption | assumption].
Qed.

(** A list ordered by time is determined by its elements, provided
    samples with the same time are the same sample. *)
Lemma StronglySorted_notLater_unique l1 l2 :
  StronglySorted (notLater getTime) l1 ->
  StronglySorted (notLater getTime) l2 ->
  Permutation l1 l2 -> timeDetermines getTime l1 -> l1 = l2.
Proof.
  intros H1. revert l2.
  induction H1 as [| a l1 Hs1 IH Hall1]; intros l2 H2 Hperm Hinj.
  - now apply Permutation_nil in Hperm.
  - destruct H2 as [| b l2 Hs2 Hall2].
    + apply Permutation_sym, Permutation_nil in Hperm. discriminate.
    + rewrite Forall_forall in Hall1, Hall2.
      assert (Hab : a = b).
      { assert (Ha : In a (b :: l2))
          by (apply (Permutation_in _ Hperm); now left).
        assert (Hb : In b (a :: l1))
          by (apply (Permutation_in _ (Permutation_sym Hperm)); now left).
        destruct Ha as [Ha | Ha]; [now symmetry |].
        destruct Hb as [Hb | Hb]; [assumption |].
        apply Hinj; [now left | now right |].
        apply notLater_antisym; [now apply Hall1 | now apply Hall2]. }
      subst b. f_equal.
      apply IH.
      * assumption.
      * now apply Permutation_cons_inv with a.
      * intros x y Hx Hy. apply Hinj; now right.
Qed.

(** *** The shape of the result *)

Lemma chunkSize_bounds heartbeats size :
  0 < size ->
  (chunkSize getTime heartbeats size - 1) * size < JS.length heartbeats
    <= chunkSize getTime heartbeats size * size.
Proof.
  intro Hs. unfold chunkSize. rewrite sorted_length.
  now apply JSFacts.ceil_div_bounds.
Qed.

Lemma chunkSize_positive heartbeats size :
  heartbeats <> [] -> 0 < size -> 1 <= chunkSize getTime heartbeats size.
Proof.
  intros Hne Hs.
  pose proof (chunkSize_bounds heartbeats size Hs) as Hb.
  pose proof (JSFacts.length_nonneg heartbeats) as Hn.
  assert (JS.length heartbeats <> 0)
    by (now rewrite JSFacts.length_zero_iff).
  nia.
Qed.

Lemma startIndex_zero heartbeats size :
  0 < size -> startIndex getTime heartbeats size = 0.
Proof.
  intro Hs. unfold startIndex. rewrite sorted_length.
  pose proof (chunkSize_bounds heartbeats size Hs). lia.
Qed.

Lemma recent_sorted heartbeats size :
  0 < size -> recent getTime heartbeats size = sorted getTime heartbeats.
Proof.
  intro Hs. unfold recent.
  rewrite startIndex_zero by assumption.
  apply JSFacts.slice_from_zero.
Qed.

(** Slot [index] holds the sorted sample just before the clamped end of
    its chunk, whether it was read from the chunk or from the fallback. *)
Lemma segment_index heartbeats size index :
  heartbeats <> [] -> 0 <= index < size ->
  segment getTime heartbeats size index
  = JS.get (sorted getTime heartbeats)
      (Z.min ((index + 1) * chunkSize getTime heartbeats size)
             (JS.length heartbeats) - 1).
Proof.
  intros Hne [Hlo Hhi].
  assert (Hs : 0 < size) by lia.
  pose proof (chunkSize_positive heartbeats size Hne Hs) as Hc.
  pose proof (chunkSize_bounds heartbeats size Hs) as Hb.
  unfold segment, chunk, lastHeartbeat.
  rewrite recent_sorted by assumption.
  set (arr := sorted getTime heartbeats).
  assert (Hlen : JS.length arr = JS.length heartbeats)
    by apply sorted_length.
  set (c := chunkSize getTime heartbeats size) in *.
  rewrite JSFacts.slice_length by nia.
  rewrite Hlen.
  destruct (Z.ltb_spec (index * c) (JS.length heartbeats)) as [Hin | Hout].
  - destruct (Z.eqb_spec
      (Z.min ((index + 1) * c) (JS.length heartbeats)
       - Z.min (index * c) (JS.length heartbeats)) 0) as [E | E]; [nia |].
    simpl.
    rewrite <- Hlen at 1 2.
    rewrite <- JSFacts.slice_length by nia.
    rewrite JSFacts.slice_last by nia.
    now rewrite Hlen.
  - destruct (Z.eqb_spec
      (Z.min ((index + 1) * c) (JS.length heartbeats)
       - Z.min (index * c) (JS.length heartbeats)) 0) as [E | E]; [| nia].
    simpl. f_equal. nia.
Qed.

Lemma segment_Some heartbeats size index :
  heartbeats <> [] -> 0 <= index < size ->
  exists h, segment getTime heartbeats size index = Some h /\ In h heartbeats.
Proof.
  intros Hne Hidx.
  assert (Hs : 0 < size) by lia.
  pose proof (chunkSize_positive heartbeats size Hne Hs) as Hc.
  assert (Hn : JS.length heartbeats <> 0)
    by (now rewrite JSFacts.length_zero_iff).
  pose proof (JSFacts.length_nonneg heartbeats) as Hn'.
  rewrite segment_index by assumption.
  destruct (JSFacts.get_in_range (sorted getTime heartbeats)
              (Z.min ((index + 1) * chunkSize getTime heartbeats size)
                     (JS.length heartbeats) - 1)) as [h Hh].
  { rewrite sorted_length. nia. }
  exists h. split; [assumption |].
  apply JSFacts.get_In in Hh.
  now apply (Permutation_in _ (sorted_Permutation heartbeats)).
Qed.

Lemma build_nonempty heartbeats size :
  heartbeats <> [] ->
  buildHistorySegments getTime heartbeats size
  = JS.from size (segment getTime heartbeats size).
Proof.
  intro Hne. unfold buildHistorySegments.
  destruct (Z.eqb_spec (JS.length heartbeats) 0) as [E | E].
  - now apply JSFacts.length_zero_iff in E.
  - reflexivity.
Qed.

Lemma build_length heartbeats size :
  JS.length (buildHistorySegments getTime heartbeats size)
  = if JS.length heartbeats =? 0 then 0 else Z.max 0 size.
Proof.
  unfold buildHistorySegments.
  destruct (JS.length heartbeats =? 0).
  - reflexivity.
  - apply JSFacts.from_length.
Qed.

Lemma build_elements heartbeats size s :
  In s (buildHistorySegments getTime heartbeats size) ->
  exists h, s = Some h /\ In h heartbeats.
Proof.
  destruct heartbeats as [| h0 rest] eqn:E.
  - intros [].
  - rewrite <- E. assert (Hne : heartbeats <> []) by (subst; discriminate).
    rewrite build_nonempty by assumption.
    intro Hin. apply JSFacts.from_In in Hin.
    destruct Hin as (i & Hi & ->).
    now apply segment_Some.
Qed.

(** The last slot holds the last sorted sample. *)
Lemma build_last heartbeats size :
  heartbeats <> [] -> 0 < size ->
  JS.get (buildHistorySegments getTime heartbeats size)
         (JS.length (buildHistorySegments getTime heartbeats size) - 1)
  = Some (JS.get (sorted getTime heartbeats) (JS.length heartbeats - 1)).
Proof.
  intros Hne Hs.
  rewrite build_length.
  destruct (Z.eqb_spec (JS.length heartbeats) 0) as [E | E].
  { now apply JSFacts.length_zero_iff in E. }
  rewrite build_nonempty by assumption.
  replace (Z.max 0 size - 1) with (size - 1) by lia.
  rewrite JSFacts.from_get by lia.
  rewrite segment_index by (assumption || lia).
  pose proof (chunkSize_bounds heartbeats size Hs).
  do 3 f_equal. lia.
Qed.

(** The last sorted sample is in the series and no sample is later. *)
Lemma sorted_last_latest heartbeats :
  heartbeats <> [] -> wellTimed getTime heartbeats ->
  exists h,
    JS.get (sorted getTime heartbeats) (JS.length heartbeats - 1) = Some h
    /\ In h heartbeats
    /\ forall h', In h' heartbeats -> notLater getTime h' h.
Proof.
  intros Hne Hwt.
  assert (Hn : JS.length heartbeats <> 0)
    by (now rewrite JSFacts.length_zero_iff).
  pose proof (JSFacts.length_nonneg heartbeats) as Hn'.
  destruct (JSFacts.get_in_range (sorted getTime heartbeats)
              (JS.length heartbeats - 1)) as [h Hh].
  { rewrite sorted_length. lia. }
  exists h. split; [assumption |]. split.
  - apply JSFacts.get_In in Hh.
    now apply (Permutation_in _ (sorted_Permutation heartbeats)).
  - intros h' Hin.
    apply (Permutation_in _ (Permutation_sym (sorted_Permutation heartbeats)))
      in Hin.
    apply In_nth_error in Hin. destruct Hin as [p Hp].
    assert (Hlt : (p < List.length (sorted getTime heartbeats))%nat).
    { apply nth_error_Some. congruence. }
    pose proof (sorted_length heartbeats) as Hl. unfold JS.length in Hl.
    apply (sorted_get_mono heartbeats (Z.of_nat p)
             (JS.length heartbeats - 1)); try assumption.
    + unfold JS.length. lia.
    + rewrite JSFacts.get_nth by lia. now rewrite Nat2Z.id.
Qed.

(** The result is a function of the sorted series alone. *)
Lemma build_depends_on_sorted heartbeats heartbeats' size :
  sorted getTime heartbeats = sorted getTime heartbeats' ->
  buildHistorySegments getTime heartbeats size
  = buildHistorySegments getTime heartbeats' size.
Proof.
  intro Heq.
  assert (Hlen : JS.length heartbeats = JS.length heartbeats').
  { now rewrite <- (sorted_length heartbeats), Heq, sorted_length. }
  unfold buildHistorySegments, segment, chunk, lastHeartbeat, recent,
    startIndex, chunkSize.
  now rewrite Heq, Hlen.
Qed.

(** *** The properties stated by the specification *)

(** C1.  For a non-empty series whose timestamps parse and a positive
    bucket count, the last slot of the result holds a sample of the
    series than which no sample of the series is later: the most recent
    sample overall. *)
Theorem last_segment_is_latest heartbeats size :
  heartbeats <> [] -> 0 < size -> wellTimed getTime heartbeats ->
  exists h,
    JS.get (buildHistorySegments getTime heartbeats size)
           (JS.length (buildHistorySegments getTime heartbeats size) - 1)
    = Some (Some h)
    /\ In h heartbeats
    /\ forall h', In h' heartbeats -> notLater getTime h' h.
Proof.
  intros Hne Hs Hwt.
  destruct (sorted_last_latest heartbeats Hne Hwt) as (h & Hget & Hin & Hmax).
  exists h. split; [| now split].
  rewrite build_last by assumption. now rewrite Hget.
Qed.

(** C2, amended.  For a positive bucket count the result has exactly
    that many slots when the series is not empty, and no slot at all
    when it is empty. *)
Theorem segment_count heartbeats size :
  0 < size ->
  (heartbeats <> [] ->
     JS.length (buildHistorySegments getTime heartbeats size) = size)
  /\ (heartbeats = [] ->
     JS.length (buildHistorySegments getTime heartbeats size) = 0).
Proof.
  intro Hs. rewrite build_length. split; intro H.
  - destruct (Z.eqb_spec (JS.length heartbeats) 0) as [E | E]; [| lia].
    now apply JSFacts.length_zero_iff in E.
  - now subst.
Qed.

(** C3.  The empty series gives the empty result, whatever the bucket
    count. *)
Theorem empty_series_empty_result size :
  buildHistorySegments getTime [] size = [].
Proof. reflexivity. Qed.

(** C4.  A series with at least as many samples as the positive bucket
    count gives exactly that many slots. *)
Theorem long_series_segment_count heartbeats size :
  0 < size -> size <= JS.length heartbeats ->
  JS.length (buildHistorySegments getTime heartbeats size) = size.
Proof.
  intros Hs Hlen. rewrite build_length.
  destruct (Z.eqb_spec (JS.length heartbeats) 0); lia.
Qed.

(** C5.  For a non-empty series, a slot whose chunk is empty holds the
    last sample of [recent], never [undefined]; when the timestamps
    parse no sample of [recent] is later than it. *)
Theorem empty_chunk_falls_back heartbeats size index :
  heartbeats <> [] -> 0 <= index < size ->
  chunk getTime heartbeats size index = [] ->
  exists h,
    JS.get (buildHistorySegments getTime heartbeats size) index
    = Some (Some h)
    /\ JS.get (recent getTime heartbeats size)
              (JS.length (recent getTime heartbeats size) - 1) = Some h
    /\ (wellTimed getTime heartbeats ->
        forall h', In h' (recent getTime heartbeats size) ->
                   notLater getTime h' h).
Proof.
  intros Hne Hidx Hempty.
  assert (Hs : 0 < size) by lia.
  assert (Hseg : segment getTime heartbeats size index
                 = lastHeartbeat getTime heartbeats size).
  { unfold segment. now rewrite Hempty. }
  destruct (segment_Some heartbeats size index Hne Hidx) as (h & Hh & Hin).
  exists h. split; [| split].
  - rewrite build_nonempty by assumption.
    rewrite JSFacts.from_get by assumption. now rewrite Hh.
  - rewrite <- Hh, Hseg. reflexivity.
  - intros Hwt h' Hin'.
    rewrite recent_sorted in Hin' by assumption.
    apply (Permutation_in _ (sorted_Permutation heartbeats)) in Hin'.
    destruct (sorted_last_latest heartbeats Hne Hwt) as (m & Hget & _ & Hmax).
    assert (h = m) as ->.
    { rewrite Hseg in Hh. unfold lastHeartbeat in Hh.
      rewrite recent_sorted, sorted_length in Hh by assumption.
      congruence. }
    now apply Hmax.
Qed.

(** C6, amended.  When every timestamp parses and samples with the same
    time value are the same sample, every permutation of the series
    gives the same result. *)
Theorem permutation_same_result heartbeats heartbeats' size :
  wellTimed getTime heartbeats -> timeDetermines getTime heartbeats ->
  Permutation heartbeats heartbeats' ->
  buildHistorySegments getTime heartbeats size
  = buildHistorySegments getTime heartbeats' size.
Proof.
  intros Hwt Hinj Hperm.
  apply build_depends_on_sorted.
  apply StronglySorted_notLater_unique.
  - now apply sorted_StronglySorted.
  - apply sorted_StronglySorted.
    now apply (Permutation_Forall Hperm).
  - rewrite !sorted_Permutation. assumption.
  - intros a b Ha Hb.
    apply Hinj; now apply (Permutation_in _ (sorted_Permutation heartbeats)).
Qed.

(** C7.  For a non-empty series whose timestamps parse, the slots of
    the result, fallback slots included, are ordered from the oldest to
    the newest: each slot holds a sample not later than the sample of
    any slot after it. *)
Theorem result_oldest_to_newest heartbeats size :
  heartbeats <> [] -> wellTimed getTime heartbeats ->
  StronglySorted (segmentNotLater getTime)
    (buildHistorySegments getTime heartbeats size).
Proof.
  intros Hne Hwt.
  rewrite build_nonempty by assumption.
  apply JSFacts.from_StronglySorted.
  intros i j Hij Hj.
  assert (Hs : 0 < size) by lia.
  pose proof (chunkSize_positive heartbeats size Hne Hs) as Hc.
  assert (Hn : JS.length heartbeats <> 0)
    by (now rewrite JSFacts.length_zero_iff).
  pose proof (JSFacts.length_nonneg heartbeats) as Hn'.
  destruct (segment_Some heartbeats size i Hne) as (a & Ha & _); [lia |].
  destruct (segment_Some heartbeats size j Hne) as (b & Hb & _); [lia |].
  rewrite Ha, Hb. simpl.
  rewrite segment_index in Ha, Hb by (assumption || lia).
  eapply sorted_get_mono; [exact Hwt | | exact Ha | exact Hb].
  nia.
Qed.

(** C8, amended.  With a bucket count of 1 a non-empty series whose
    timestamps parse gives exactly one slot, and it holds the most
    recent sample of the series. *)
Theorem single_bucket_is_latest heartbeats :
  heartbeats <> [] -> wellTimed getTime heartbeats ->
  exists h,
    buildHistorySegments getTime heartbeats 1 = [Some h]
    /\ In h heartbeats
    /\ forall h', In h' heartbeats -> notLater getTime h' h.
Proof.
  intros Hne Hwt.
  destruct (sorted_last_latest heartbeats Hne Hwt) as (h & Hget & Hin & Hmax).
  exists h. split; [| now split].
  rewrite build_nonempty by assumption.
  unfold JS.from. simpl.
  rewrite segment_index by (assumption || lia).
  pose proof (chunkSize_bounds heartbeats 1 ltac:(lia)).
  replace (Z.min ((0 + 1) * chunkSize getTime heartbeats 1)
                 (JS.length heartbeats) - 1)
    with (JS.length heartbeats - 1) by lia.
  now rewrite Hget.
Qed.


(** C10.  For a non-empty series and a positive bucket count,
    [chunkSize] is the ceiling of the quotient, so [chunkSize * size]
    reaches the length; [startIndex] is 0; [recent] is the whole sorted
    series and so loses no sample; and every slot of the result holds a
    sample of the series. *)
Theorem window_keeps_every_sample heartbeats size :
  heartbeats <> [] -> 0 < size ->
  (chunkSize getTime heartbeats size - 1) * size < JS.length heartbeats
    <= chunkSize getTime heartbeats size * size
  /\ startIndex getTime heartbeats size = 0
  /\ recent getTime heartbeats size = sorted getTime heartbeats
  /\ Permutation (recent getTime heartbeats size) heartbeats
  /\ forall s, In s (buildHistorySegments getTime heartbeats size) ->
       exists h, s = Some h /\ In h heartbeats.
Proof.
  intros Hne Hs. split; [| split; [| split; [| split]]].
  - now apply chunkSize_bounds.
  - now apply startIndex_zero.
  - now apply recent_sorted.
  - rewrite recent_sorted by assumption. apply sorted_Permutation.
  - apply build_elements.
Qed.
End BucketizerFacts.

(** ** The properties on concrete series *)

Import Samples.
Import IsoDate(isoTime).

(** The scenario worked out in the specification: three samples, two
    buckets. *)
Example scenario_three_samples_two_buckets :
  buildHistorySegments isoTime [up1; down2; up3] 2 = [Some down2; Some up3].
Proof. reflexivity. Qed.

Lemma wellTimed_five : wellTimed isoTime five.
Proof. repeat constructor; vm_compute; discriminate. Defined.

Lemma wellTimed_three : wellTimed isoTime three.
Proof. repeat constructor; vm_compute; discriminate. Defined.

Lemma timeDetermines_three : timeDetermines isoTime three.
Proof.
  intros a b Ha Hb. unfold three in Ha, Hb. simpl in Ha, Hb.
  destruct Ha as [<- | [<- | [<- | []]]];
    destruct Hb as [<- | [<- | [<- | []]]];
    vm_compute; intro E; (reflexivity || discriminate E).
Defined.

(** C1 on three shuffled samples and two buckets. *)
Lemma last_segment_is_latest_witness :
  exists h,
    JS.get (buildHistorySegments isoTime three 2)
           (JS.length (buildHistorySegments isoTime three 2) - 1)
    = Some (Some h)
    /\ In h three
    /\ forall h', In h' three -> notLater isoTime h' h.
Proof.
  apply (last_segment_is_latest isoTime three 2).
  - unfold three. discriminate.
  - reflexivity.
  - exact wellTimed_three.
Defined.

(** C2: the empty series under the default bucket count has no slot,
    not 24. *)
Lemma empty_series_has_no_segment :
  JS.length (buildHistorySegments isoTime [] defaultSize) <> defaultSize.
Proof. vm_compute. discriminate. Qed.

(** C2, amended, on one sample and the default bucket count. *)
Lemma segment_count_witness :
  0 < defaultSize
  /\ (([up3] : list Heartbeat.t) <> [] ->
      JS.length (buildHistorySegments isoTime [up3] defaultSize) = defaultSize)
  /\ (([up3] : list Heartbeat.t) = [] ->
      JS.length (buildHistorySegments isoTime [up3] defaultSize) = 0).
Proof.
  split; [reflexivity |].
  apply (segment_count isoTime [up3] defaultSize). reflexivity.
Defined.

(** C4 on three samples and two buckets. *)
Lemma long_series_segment_count_witness :
  0 < 2 /\ 2 <= JS.length three
  /\ JS.length (buildHistorySegments isoTime three 2) = 2.
Proof.
  split; [reflexivity |]. split; [vm_compute; discriminate |].
  apply (long_series_segment_count isoTime three 2).
  - reflexivity.
  - vm_compute. discriminate.
Defined.

(** C5 on five samples and four buckets: the chunks have two samples
    each, so the fourth chunk is empty. *)
Lemma empty_chunk_falls_back_witness :
  chunk isoTime five 4 3 = []
  /\ exists h,
    JS.get (buildHistorySegments isoTime five 4) 3 = Some (Some h)
    /\ JS.get (recent isoTime five 4) (JS.length (recent isoTime five 4) - 1)
       = Some h
    /\ (wellTimed isoTime five ->
        forall h', In h' (recent isoTime five 4) -> notLater isoTime h' h).
Proof.
  split; [reflexivity |].
  apply (empty_chunk_falls_back isoTime five 4 3).
  - discriminate.
  - lia.
  - reflexivity.
Defined.

(** C6: two different samples taken at the same instant.  The stable
    sort keeps them in the order received, so the single bucket holds
    whichever came last. *)
Lemma tie_breaks_order_insensitivity :
  Permutation [tieUp; tieDown] [tieDown; tieUp]
  /\ buildHistorySegments isoTime [tieUp; tieDown] 1
     <> buildHistorySegments isoTime [tieDown; tieUp] 1.
Proof.
  split.
  - apply perm_swap.
  - vm_compute. discriminate.
Qed.

(** C6, amended, on three samples with distinct times, rotated. *)
Lemma permutation_same_result_witness :
  Permutation three [up1; down2; up3]
  /\ buildHistorySegments isoTime three 2
     = buildHistorySegments isoTime [up1; down2; up3] 2.
Proof.
  assert (P : Permutation three [up1; down2; up3])
    by apply (Permutation_cons_append [up1; down2] up3).
  split; [exact P |].
  apply (permutation_same_result isoTime three [up1; down2; up3] 2).
  - exact wellTimed_three.
  - exact timeDetermines_three.
  - exact P.
Defined.

(** C7 on five samples and four buckets, the last of them a fallback. *)
Lemma result_oldest_to_newest_witness :
  StronglySorted (segmentNotLater isoTime)
    (buildHistorySegments isoTime five 4).
Proof.
  apply (result_oldest_to_newest isoTime five 4).
  - discriminate.
  - exact wellTimed_five.
Defined.

(** C8: with one bucket the empty series still gives no bucket. *)
Lemma single_bucket_empty_series :
  buildHistorySegments isoTime [] 1 = []
  /\ ~ exists s, buildHistorySegments isoTime [] 1 = [s].
Proof.
  split; [reflexivity |].
  intros [s Hs]. vm_compute in Hs. discriminate Hs.
Qed.

(** C8, amended, on three shuffled samples. *)
Lemma single_bucket_is_latest_witness :
  exists h,
    buildHistorySegments isoTime three 1 = [Some h]
    /\ In h three
    /\ forall h', In h' three -> notLater isoTime h' h.
Proof.
  apply (single_bucket_is_latest isoTime three).
  - discriminate.
  - exact wellTimed_three.
Defined.


(** C10 on five samples and four buckets. *)
Lemma window_keeps_every_sample_witness :
  (chunkSize isoTime five 4 - 1) * 4 < JS.length five
    <= chunkSize isoTime five 4 * 4
  /\ startIndex isoTime five 4 = 0
  /\ recent isoTime five 4 = sorted isoTime five
  /\ Permutation (recent isoTime five 4) five
  /\ forall s,
       In s (buildHistorySegments isoTime five 4) ->
       exists h, s = Some h /\ In h five.
Proof.
  apply (window_keeps_every_sample isoTime five 4).
  - discriminate.
  - reflexivity.
Defined.

(** ** Facts about the string primitives *)

Module StrFacts.
Local Open Scope string_scope.

Lemma append_nil_r s : s ++ "" = s.
Proof. induction s as [| c s IH]; simpl; [reflexivity | now rewrite IH]. Qed.

Lemma append_assoc s1 s2 s3 : (s1 ++ s2) ++ s3 = s1 ++ (s2 ++ s3).
Proof. induction s1 as [| c s1 IH]; simpl; [reflexivity | now rewrite IH]. Qed.

Lemma length_append s1 s2 :
  String.length (s1 ++ s2) = (String.length s1 + String.length s2)%nat.
Proof. induction s1 as [| c s1 IH]; simpl; [reflexivity | now rewrite IH]. Qed.

Lemma append_inj_l p a b : p ++ a = p ++ b -> a = b.
Proof.
  induction p as [| c p IH]; simpl; intro H; [assumption |].
  injection H as H. now apply IH.
Qed.

Lemma prefix_append p s : prefix p (p ++ s) = true.
Proof.
  induction p as [| c p IH]; simpl.
  - now destruct s.
  - destruct (ascii_dec c c); [assumption | congruence].
Qed.

Lemma prefix_split p s : prefix p s = true -> exists r, s = p ++ r.
Proof.
  revert s. induction p as [| c p IH]; intros s H.
  - now exists s.
  - destruct s as [| d s]; simpl in H; [discriminate |].
    destruct (ascii_dec c d) as [-> |]; [| discriminate].
    destruct (IH s H) as [r ->]. now exists r.
Qed.

Lemma includes_unfold s pattern :
  Str.includes s pattern
  = prefix pattern s
    || match s with
       | EmptyString => false
       | String _ rest => Str.includes rest pattern
       end.
Proof. now destruct s. Qed.

Lemma includes_append pre pattern post :
  Str.includes (pre ++ pattern ++ post) pattern = true.
Proof.
  induction pre as [| c pre IH]; simpl.
  - now rewrite includes_unfold, prefix_append.
  - rewrite IH. apply orb_true_r.
Qed.

Lemma includes_split s pattern :
  Str.includes s pattern = true ->
  exists pre post, s = pre ++ pattern ++ post.
Proof.
  induction s as [| c s IH]; intro H; rewrite includes_unfold in H.
  - rewrite orb_false_r in H. apply prefix_split in H.
    destruct H as [r ->]. now exists "", r.
  - apply orb_true_iff in H. destruct H as [H | H].
    + apply prefix_split in H. destruct H as [r ->]. now exists "", r.
    + destruct (IH H) as (pre & post & ->). now exists (String c pre), post.
Qed.

Lemma stripPrefix_append p s : Str.stripPrefix p (p ++ s) = Some s.
Proof.
  induction p as [| c p IH]; simpl; [reflexivity |].
  now rewrite Ascii.eqb_refl.
Qed.

Lemma stripPrefix_split p s r : Str.stripPrefix p s = Some r -> s = p ++ r.
Proof.
  revert s. induction p as [| c p IH]; intros s H; simpl in H.
  - now injection H as ->.
  - destruct s as [| d s]; [discriminate |].
    destruct (Ascii.eqb_spec c d) as [-> |]; [| discriminate].
    simpl. f_equal. now apply IH.
Qed.

Lemma slashes_append s1 s2 :
  Str.slashes (s1 ++ s2) = (Str.slashes s1 + Str.slashes s2)%nat.
Proof.
  induction s1 as [| c s1 IH]; simpl; [reflexivity |].
  rewrite IH. lia.
Qed.

Lemma slashFree_slashes s :
  Str.slashFree s = true -> Str.slashes s = 0%nat.
Proof.
  induction s as [| c s IH]; simpl; intro H; [reflexivity |].
  apply andb_true_iff in H. destruct H as [Hc Hs].
  destruct (Ascii.eqb c "/"); [discriminate |]. now rewrite IH.
Qed.

Lemma stripTrailingSlash_snoc s : Str.stripTrailingSlash (s ++ "/") = s.
Proof.
  induction s as [| c s IH]; [reflexivity |].
  change (String c s ++ "/") with (String c (s ++ "/")).
  simpl. rewrite IH. now destruct s.
Qed.

Lemma stripTrailingSlash_unchanged s :
  (forall p, s <> p ++ "/") -> Str.stripTrailingSlash s = s.
Proof.
  induction s as [| c s IH]; intro H; [reflexivity |].
  simpl. destruct s as [| d s].
  - destruct (Ascii.eqb_spec c "/") as [-> |]; [| reflexivity].
    now destruct (H "").
  - rewrite IH; [reflexivity |].
    intros p E. apply (H (String c p)). simpl. now rewrite <- E.
Qed.

Lemma slashFree_no_trailing_slash a s :
  s <> "" -> Str.slashFree s = true -> forall p, a ++ s <> p ++ "/".
Proof.
  intros Hne Hfree p E.
  assert (G : forall t, t <> "" -> Str.slashFree t = true ->
                        forall a p, a ++ t <> p ++ "/").
  { clear. intros t Hne Hfree a. induction a as [| c a IH]; intros p E.
    - simpl in E. subst t. clear Hne.
      induction p as [| d p IHp]; simpl in Hfree; [discriminate |].
      apply andb_true_iff in Hfree. now apply IHp.
    - destruct p as [| d p]; simpl in E.
      + injection E as -> E. destruct a; [now destruct t | discriminate].
      + injection E as -> E. now apply (IH p). }
  now apply (G s Hne Hfree a p).
Qed.
End StrFacts.

(** ** The endpoints of a status page *)

Section EndpointFacts.
Local Open Scope string_scope.
Import Endpoints.

Lemma toHeartbeat_unfold s :
  toHeartbeat s
  = match slugAt s with
    | Some slug => heartbeatPath ++ slug
    | None =>
        match s with
        | EmptyString => EmptyString
        | String c rest => String c (toHeartbeat rest)
        end
    end.
Proof. now destruct s. Qed.

Lemma slugAt_Some s slug :
  slugAt s = Some slug <->
  s = statusPath ++ slug /\ slug <> "" /\ Str.slashFree slug = true.
Proof.
  unfold slugAt. split.
  - destruct (Str.stripPrefix statusPath s) as [r |] eqn:E; [| discriminate].
    apply StrFacts.stripPrefix_split in E.
    destruct r as [| c r]; [discriminate |].
    destruct (Str.slashFree (String c r)) eqn:F; [| discriminate].
    intro H. injection H as <-. split; [assumption |]. split; [discriminate |].
    exact F.
  - intros (-> & Hne & Hfree).
    rewrite StrFacts.stripPrefix_append.
    destruct slug; [congruence |]. now rewrite Hfree.
Qed.

(** The pattern matches at one position at most: behind a non-empty
    prefix it cannot match again. *)
Lemma slugAt_behind_prefix c pre slug :
  Str.slashFree slug = true ->
  slugAt (String c pre ++ statusPath ++ slug) = None.
Proof.
  intro Hfree.
  destruct (slugAt (String c pre ++ statusPath ++ slug)) as [slug' |] eqn:E;
    [| reflexivity].
  apply slugAt_Some in E. destruct E as (E & _ & Hfree').
  assert (Hcount : Str.slashes (String c pre ++ statusPath ++ slug)
                   = Str.slashes (statusPath ++ slug'))
    by now rewrite E.
  rewrite !StrFacts.slashes_append in Hcount.
  rewrite (StrFacts.slashFree_slashes _ Hfree),
    (StrFacts.slashFree_slashes _ Hfree') in Hcount.
  simpl in E. injection E as -> _.
  simpl in Hcount. lia.
Qed.

Lemma toHeartbeat_match pre slug :
  slug <> "" -> Str.slashFree slug = true ->
  toHeartbeat (pre ++ statusPath ++ slug) = pre ++ heartbeatPath ++ slug.
Proof.
  intros Hne Hfree. induction pre as [| c pre IH].
  - rewrite toHeartbeat_unfold.
    assert (E : slugAt ("" ++ statusPath ++ slug) = Some slug)
      by now apply slugAt_Some.
    now rewrite E.
  - rewrite toHeartbeat_unfold.
    rewrite slugAt_behind_prefix by assumption.
    simpl. simpl in IH. now rewrite IH.
Qed.

Lemma toHeartbeat_cases s :
  toHeartbeat s = s
  \/ exists pre slug,
       s = pre ++ statusPath ++ slug /\ slug <> ""
       /\ Str.slashFree slug = true
       /\ toHeartbeat s = pre ++ heartbeatPath ++ slug.
Proof.
  induction s as [| c s IH].
  - now left.
  - rewrite toHeartbeat_unfold.
    destruct (slugAt (String c s)) as [slug |] eqn:E.
    + right. apply slugAt_Some in E. destruct E as (E & Hne & Hfree).
      exists "", slug. now repeat split.
    + destruct IH as [IH | (pre & slug & -> & Hne & Hfree & IH)].
      * left. now rewrite IH.
      * right. exists (String c pre), slug.
        repeat split; try assumption. rewrite IH. reflexivity.
Qed.

Lemma heartbeatPath_longer pre slug :
  pre ++ heartbeatPath ++ slug <> pre ++ statusPath ++ slug.
Proof.
  intro E. apply (f_equal String.length) in E.
  rewrite !StrFacts.length_append in E. simpl in E. lia.
Qed.

(** X1.  A base URL, one that does not contain [/api/status-page/] once
    its final slash is dropped, is never rejected: the status page 0 and
    its heartbeat endpoint are fetched under it. *)
Theorem base_url_endpoints url :
  Str.includes (Str.stripTrailingSlash url) "/api/status-page/" = false ->
  derive url
  = Fulfilled
      (Str.stripTrailingSlash url ++ "/api/status-page/0",
       Str.stripTrailingSlash url ++ "/api/status-page/heartbeat/0").
Proof.
  intro H. unfold derive, statusUrl, heartbeatUrl, normalizedUrl.
  rewrite H.
  destruct (String.eqb_spec
              (Str.stripTrailingSlash url ++ "/api/status-page/0")
              (Str.stripTrailingSlash url ++ "/api/status-page/heartbeat/0"))
    as [E | _]; [| reflexivity].
  apply StrFacts.append_inj_l in E. discriminate E.
Qed.

(** X2.  The URL of a status page, [prefix/api/status-page/slug] with a
    slug that is not empty and has no slash, is kept as the status URL
    and gives [prefix/api/status-page/heartbeat/slug] as the heartbeat
    URL, whatever the prefix is. *)
Theorem status_page_endpoints pre slug :
  slug <> "" -> Str.slashFree slug = true ->
  derive (pre ++ "/api/status-page/" ++ slug)
  = Fulfilled (pre ++ "/api/status-page/" ++ slug,
               pre ++ "/api/status-page/heartbeat/" ++ slug).
Proof.
  intros Hne Hfree. unfold derive, statusUrl, heartbeatUrl, normalizedUrl.
  rewrite StrFacts.stripTrailingSlash_unchanged.
  2:{ rewrite <- StrFacts.append_assoc.
      now apply StrFacts.slashFree_no_trailing_slash. }
  rewrite StrFacts.includes_append.
  pose proof (toHeartbeat_match pre slug Hne Hfree) as Hto.
  unfold statusPath in Hto. rewrite Hto.
  destruct (String.eqb_spec (pre ++ "/api/status-page/" ++ slug)
                            (pre ++ heartbeatPath ++ slug)) as [E | _];
    [| reflexivity].
  symmetry in E. now apply heartbeatPath_longer in E.
Qed.

(** X3.  One slash appended to a URL that does not end with a slash
    changes nothing. *)
Theorem trailing_slash_ignored url :
  (forall p, url <> p ++ "/") -> derive (url ++ "/") = derive url.
Proof.
  intro H. unfold derive, statusUrl, heartbeatUrl, normalizedUrl.
  rewrite StrFacts.stripTrailingSlash_snoc.
  now rewrite (StrFacts.stripTrailingSlash_unchanged url H).
Qed.

(** X4.  A URL is rejected exactly when, its final slash dropped, it
    contains [/api/status-page/] but does not end with
    [/api/status-page/slug] for a slug that is not empty and has no
    slash. *)
Theorem rejected_urls url :
  derive url = Rejected "Invalid Uptime Kuma status page URL"
  <-> Str.includes (Str.stripTrailingSlash url) "/api/status-page/" = true
      /\ forall pre slug,
           Str.stripTrailingSlash url = pre ++ "/api/status-page/" ++ slug ->
           slug = "" \/ Str.slashFree slug = false.
Proof.
  unfold derive, statusUrl, heartbeatUrl, normalizedUrl.
  set (n := Str.stripTrailingSlash url).
  destruct (Str.includes n "/api/status-page/") eqn:Hinc.
  - destruct (toHeartbeat_cases n)
      as [Hsame | (pre & slug & En & Hne & Hfree & Hto)].
    + rewrite Hsame, String.eqb_refl. split; [| reflexivity].
      intros _. split; [reflexivity |].
      intros pre slug En.
      destruct slug as [| c slug]; [now left |]. right.
      destruct (Str.slashFree (String c slug)) eqn:Hfree; [| reflexivity].
      exfalso. rewrite En in Hsame.
      rewrite toHeartbeat_match in Hsame by (assumption || discriminate).
      now apply heartbeatPath_longer in Hsame.
    + rewrite Hto, En.
      destruct (String.eqb_spec (pre ++ statusPath ++ slug)
                                (pre ++ heartbeatPath ++ slug)) as [E | _].
      { symmetry in E. now apply heartbeatPath_longer in E. }
      split; [discriminate |].
      intros [_ Hall]. destruct (Hall pre slug eq_refl); congruence.
  - destruct (String.eqb_spec (n ++ "/api/status-page/0")
                              (n ++ "/api/status-page/heartbeat/0"))
      as [E | _].
    { apply StrFacts.append_inj_l in E. discriminate E. }
    split; [discriminate | intros [? _]; discriminate].
Qed.

(** X5.  Whenever a pair of URLs is produced, the two name the same
    page: they are [prefix/api/status-page/slug] and
    [prefix/api/status-page/heartbeat/slug] for one prefix and one slug,
    and the slug is not empty and has no slash. *)
Theorem endpoints_same_page url status heartbeat :
  derive url = Fulfilled (status, heartbeat) ->
  exists pre slug,
    status = pre ++ "/api/status-page/" ++ slug
    /\ heartbeat = pre ++ "/api/status-page/heartbeat/" ++ slug
    /\ slug <> "" /\ Str.slashFree slug = true.
Proof.
  unfold derive, statusUrl, heartbeatUrl, normalizedUrl.
  set (n := Str.stripTrailingSlash url).
  destruct (Str.includes n "/api/status-page/") eqn:Hinc.
  - destruct (toHeartbeat_cases n)
      as [Hsame | (pre & slug & En & Hne & Hfree & Hto)].
    + rewrite Hsame, String.eqb_refl. discriminate.
    + rewrite Hto.
      destruct (n =? pre ++ heartbeatPath ++ slug); [discriminate |].
      intro H. injection H as <- <-.
      exists pre, slug. now repeat split.
  - destruct (n ++ "/api/status-page/0"
              =? n ++ "/api/status-page/heartbeat/0"); [discriminate |].
    intro H. injection H as <- <-.
    exists n, "0". repeat split. discriminate.
Qed.
End EndpointFacts.

(** ** The status code of a message *)

Section StatusCodeFacts.
Local Open Scope string_scope.
Import StatusCode.

Lemma firstCode_unfold before s :
  firstCode before s
  = match codeAt before s with
    | Some code => Some code
    | None =>
        match s with
        | EmptyString => None
        | String c rest => firstCode (Some c) rest
        end
    end.
Proof. now destruct s. Qed.

Lemma codeAt_Some before s code :
  codeAt before s = Some code <->
  exists post,
    s = code ++ post /\ threeDigits code
    /\ clearBefore before "" = true /\ startsWithWord post = false.
Proof.
  unfold codeAt, clearBefore. split.
  - destruct s as [| a [| b [| c rest]]]; try discriminate.
    destruct (negb match before with
                   | Some p => Str.isWord p
                   | None => false
                   end) eqn:Hb; [| discriminate].
    destruct (Str.isDigit a) eqn:Ha; [| discriminate].
    destruct (Str.isDigit b) eqn:Hb'; [| discriminate].
    destruct (Str.isDigit c) eqn:Hc; [| discriminate].
    destruct (startsWithWord rest) eqn:Hr; [discriminate |].
    simpl. intro H. injection H as <-.
    exists rest. repeat split; try assumption.
    now exists a, b, c.
  - intros (post & -> & (a & b & c & -> & Ha & Hb & Hc) & Hbefore & Hpost).
    simpl. now rewrite Hbefore, Ha, Hb, Hc, Hpost.
Qed.

Lemma clearBefore_cons before c pre :
  clearBefore before (String c pre) = clearBefore (Some c) pre.
Proof. now destruct pre. Qed.

Lemma clearBefore_None pre : clearBefore None pre = negb (endsWithWord pre).
Proof. now destruct pre. Qed.

(** What [firstCode] finds stands alone, and nothing stands alone to the
    left of it. *)
Lemma firstCode_sound s :
  forall before code,
    firstCode before s = Some code ->
    exists pre post,
      s = pre ++ code ++ post /\ threeDigits code
      /\ clearBefore before pre = true /\ startsWithWord post = false
      /\ forall pre' code' post',
           s = pre' ++ code' ++ post' -> threeDigits code' ->
           clearBefore before pre' = true -> startsWithWord post' = false ->
           (String.length pre <= String.length pre')%nat.
Proof.
  induction s as [| c s IH]; intros before code H;
    rewrite firstCode_unfold in H.
  - discriminate.
  - destruct (codeAt before (String c s)) as [code0 |] eqn:E.
    + injection H as ->. apply codeAt_Some in E.
      destruct E as (post & E & Hd & Hb & Hp).
      exists "", post. repeat split; try assumption.
      intros. simpl. lia.
    + destruct (IH (Some c) code H)
        as (pre & post & -> & Hd & Hb & Hp & Hleft).
      exists (String c pre), post.
      rewrite clearBefore_cons. repeat split; try assumption.
      intros pre' code' post' E' Hd' Hb' Hp'.
      destruct pre' as [| c' pre'].
      * exfalso. simpl in E'.
        assert (codeAt before (String c (pre ++ code ++ post)) = Some code')
          as E2 by (apply codeAt_Some; now exists post').
        congruence.
      * simpl in E'. injection E' as <- E'.
        rewrite clearBefore_cons in Hb'.
        pose proof (Hleft pre' code' post' E' Hd' Hb' Hp'). simpl. lia.
Qed.

(** Where something stands alone, [firstCode] finds something. *)
Lemma firstCode_complete pre :
  forall before code post,
    threeDigits code -> clearBefore before pre = true ->
    startsWithWord post = false ->
    firstCode before (pre ++ code ++ post) <> None.
Proof.
  induction pre as [| c pre IH]; intros before code post Hd Hb Hp;
    rewrite firstCode_unfold.
  - assert (codeAt before ("" ++ code ++ post) = Some code) as ->
      by (apply codeAt_Some; now exists post).
    discriminate.
  - destruct (codeAt before (String c pre ++ code ++ post));
      [discriminate |].
    rewrite clearBefore_cons in Hb.
    simpl. now apply IH.
Qed.

(** X6.  When a three-digit number stands alone somewhere in the
    message, the result is such a number, taken from the message, and
    none stands alone further to the left. *)
Theorem status_code_is_leftmost message pre code post :
  message = pre ++ code ++ post -> standsAlone pre code post ->
  exists pre0 code0 post0,
    message = pre0 ++ code0 ++ post0 /\ standsAlone pre0 code0 post0
    /\ getStatusCode (Some message) = code0
    /\ (String.length pre0 <= String.length pre)%nat.
Proof.
  intros E (Hd & Hb & Hp).
  assert (Hsome : firstCode None message <> None).
  { rewrite E. apply firstCode_complete; try assumption.
    now rewrite clearBefore_None, Hb. }
  destruct (firstCode None message) as [code0 |] eqn:F; [| congruence].
  destruct (firstCode_sound message None code0 F)
    as (pre0 & post0 & E0 & Hd0 & Hb0 & Hp0 & Hleft).
  exists pre0, code0, post0.
  rewrite clearBefore_None in Hb0. apply negb_true_iff in Hb0.
  repeat split; try assumption.
  - unfold getStatusCode. rewrite F.
    destruct message; [| reflexivity].
    destruct Hd as (a & b & c & -> & _). now destruct pre.
  - apply (Hleft pre code post E Hd); [| assumption].
    now rewrite clearBefore_None, Hb.
Qed.

(** X7.  A message that is not empty and in which no three-digit number
    stands alone is returned whole. *)
Theorem status_code_absent message :
  message <> "" ->
  (forall pre code post,
     message = pre ++ code ++ post -> ~ standsAlone pre code post) ->
  getStatusCode (Some message) = message.
Proof.
  intros Hne Hnone. unfold getStatusCode.
  destruct message as [| c rest]; [congruence |].
  destruct (firstCode None (String c rest)) as [code |] eqn:F;
    [| reflexivity].
  destruct (firstCode_sound _ None code F)
    as (pre & post & E & Hd & Hb & Hp & _).
  rewrite clearBefore_None in Hb. apply negb_true_iff in Hb.
  exfalso. now apply (Hnone pre code post E).
Qed.

(** X8.  The status-code cell is never blank: a missing or empty message
    gives a dash, and every other result has a character. *)
Theorem status_code_not_empty message : getStatusCode message <> "".
Proof.
  unfold getStatusCode.
  destruct message as [[| c rest] |]; try discriminate.
  destruct (firstCode None (String c rest)) as [code |] eqn:F;
    [| discriminate].
  destruct (firstCode_sound _ None code F)
    as (_ & _ & _ & (a & b & d & -> & _) & _).
  discriminate.
Qed.
End StatusCodeFacts.

(** ** The status lookups *)

Section StatusFacts.
Local Open Scope string_scope.
Import Status.

(** X9.  The two colour tables agree on the four known statuses, where
    the bar class is [bg-<name>-500], and on no other status: there the
    bar is [bg-gray-400] while the name stays [gray]. *)
Theorem bar_colour_matches_name status :
  getStatusColor status = "bg-" ++ getStatusColorName status ++ "-500"
  <-> (0 <= status <= 3)%Z.
Proof.
  unfold getStatusColor, getStatusColorName.
  destruct (Z.eqb_spec status 1);
    [subst; simpl; split; [lia | reflexivity] |].
  destruct (Z.eqb_spec status 0);
    [subst; simpl; split; [lia | reflexivity] |].
  destruct (Z.eqb_spec status 2);
    [subst; simpl; split; [lia | reflexivity] |].
  destruct (Z.eqb_spec status 3);
    [subst; simpl; split; [lia | reflexivity] |].
  simpl. split; [discriminate | lia].
Qed.
End StatusFacts.

(** ** The date handed to the formatter *)

Section FormatTimeFacts.
Local Open Scope string_scope.
Import FormatTime.

Lemma hasTimeZone_unfold s :
  hasTimeZone s
  = zoneAt s
    || match s with
       | EmptyString => false
       | String _ rest => hasTimeZone rest
       end.
Proof. now destruct s. Qed.

Lemma hasTimeZone_append_Z s : hasTimeZone (s ++ "Z") = true.
Proof.
  induction s as [| c s IH]; [reflexivity |].
  change (String c s ++ "Z") with (String c (s ++ "Z")).
  rewrite hasTimeZone_unfold, IH. apply orb_true_r.
Qed.

Lemma isDigit_not_space d : Str.isDigit d = true -> Ascii.eqb d " " = false.
Proof.
  intro H. destruct (Ascii.eqb_spec d " ") as [-> |]; [discriminate H |].
  reflexivity.
Qed.

Lemma twoDigitsOnly_no_space s :
  twoDigitsOnly s = true -> Str.replaceFirst " " "T" s = s.
Proof.
  destruct s as [| a [| b [| c rest]]]; try discriminate.
  simpl. intro H. apply andb_true_iff in H. destruct H as [Ha Hb].
  now rewrite (isDigit_not_space a Ha), (isDigit_not_space b Hb).
Qed.

(** A zone offset has no space for [replace] to find. *)
Lemma offsetDigits_no_space s :
  offsetDigits s = true -> Str.replaceFirst " " "T" s = s.
Proof.
  destruct s as [| d1 [| d2 tail]]; try discriminate.
  unfold offsetDigits. intro H.
  apply andb_true_iff in H. destruct H as [H Htail].
  apply andb_true_iff in H. destruct H as [H1 H2].
  simpl. rewrite (isDigit_not_space d1 H1), (isDigit_not_space d2 H2).
  do 2 f_equal.
  apply orb_true_iff in Htail. destruct Htail as [Hcolon | Hplain].
  - destruct tail as [| colon tail']; [discriminate |].
    apply andb_true_iff in Hcolon. destruct Hcolon as [Hc Ht].
    apply Ascii.eqb_eq in Hc. subst colon. simpl.
    now rewrite (twoDigitsOnly_no_space tail' Ht).
  - now apply twoDigitsOnly_no_space.
Qed.

Lemma hasTimeZone_replaceFirst s :
  hasTimeZone s = true -> hasTimeZone (Str.replaceFirst " " "T" s) = true.
Proof.
  induction s as [| c s IH]; [discriminate |].
  rewrite hasTimeZone_unfold. intro H. simpl.
  destruct (Ascii.eqb_spec c " ") as [-> | Hc].
  - simpl in H. rewrite hasTimeZone_unfold, H. apply orb_true_r.
  - rewrite hasTimeZone_unfold.
    apply orb_true_iff in H. destruct H as [H | H].
    + apply orb_true_iff. left.
      unfold zoneAt in *. apply orb_true_iff in H. destruct H as [H | H].
      * now rewrite H.
      * apply andb_true_iff in H. destruct H as [Hsign Hoff].
        rewrite (offsetDigits_no_space s Hoff), Hsign, Hoff.
        apply orb_true_r.
    + rewrite (IH H). apply orb_true_r.
Qed.

Lemma includes_append_l s t pattern :
  Str.includes s pattern = true -> Str.includes (s ++ t) pattern = true.
Proof.
  intro H. apply StrFacts.includes_split in H.
  destruct H as (pre & post & ->).
  rewrite !StrFacts.append_assoc. apply StrFacts.includes_append.
Qed.

(** Either the replacement has put a [T] into the string, or the string
    has no space and the replacement passes over it. *)
Lemma replaceFirst_space s :
  Str.includes (Str.replaceFirst " " "T" s) "T" = true
  \/ forall t,
       Str.replaceFirst " " "T" (s ++ t) = s ++ Str.replaceFirst " " "T" t.
Proof.
  induction s as [| c s IH].
  - now right.
  - simpl. destruct (Ascii.eqb c " ").
    + left. rewrite StrFacts.includes_unfold. simpl. now destruct s.
    + destruct IH as [IH | IH].
      * left. rewrite StrFacts.includes_unfold, IH. apply orb_true_r.
      * right. intro t. now rewrite IH.
Qed.


(** X11.  Normalising twice is normalising once: a string that
    [dateArgument] has produced is handed to [Date] as it is. *)
Theorem date_argument_idempotent timeStr :
  dateArgument (dateArgument timeStr) = dateArgument timeStr.
Proof.
  assert (Hzone : hasTimeZone (dateArgument timeStr) = true).
  { unfold dateArgument, normalized.
    destruct (hasTimeZone timeStr) eqn:H; [| apply hasTimeZone_append_Z].
    destruct (Str.includes timeStr "T"); [assumption |].
    now apply hasTimeZone_replaceFirst. }
  assert (H : Str.includes (dateArgument timeStr) "T" = true
              \/ Str.replaceFirst " " "T" (dateArgument timeStr)
                 = dateArgument timeStr).
  { unfold dateArgument, normalized.
    destruct (Str.includes timeStr "T") eqn:Hinc.
    - left. destruct (hasTimeZone timeStr); [assumption |].
      now apply includes_append_l.
    - destruct (replaceFirst_space timeStr) as [HT | Hnone].
      + left. destruct (hasTimeZone timeStr); [assumption |].
        now apply includes_append_l.
      + right.
        assert (Hsame : Str.replaceFirst " " "T" timeStr = timeStr).
        { pose proof (Hnone "") as E. simpl in E.
          now rewrite !StrFacts.append_nil_r in E. }
        rewrite Hsame.
        destruct (hasTimeZone timeStr); [assumption |].
        now rewrite Hnone. }
  set (d := dateArgument timeStr) in *.
  unfold dateArgument. rewrite Hzone. unfold normalized.
  destruct (Str.includes d "T"); [reflexivity |].
  destruct H as [H | H]; [discriminate | assumption].
Qed.
End FormatTimeFacts.

(** ** One row of the table *)

Section RowFacts.
Local Open Scope string_scope.
Variable getTime : string -> option Z.

(** Sorting a series that is in order leaves it as it is. *)
Lemma sort_StronglySorted arr :
  StronglySorted (notLater getTime) arr ->
  JS.sort (byTime getTime) arr = arr.
Proof.
  induction 1 as [| a arr Hs IH Hall]; [reflexivity |].
  simpl. fold (JS.sort (byTime getTime) arr). rewrite IH.
  destruct arr as [| y rest]; [reflexivity |].
  simpl. inversion Hall as [| ? ? Hay _]; subst.
  unfold notLater in Hay. unfold JS.SortCompare, byTime.
  destruct (getTime (Heartbeat.time a)) as [ta |]; [| contradiction].
  destruct (getTime (Heartbeat.time y)) as [ty |]; [| contradiction].
  destruct (Z.ltb_spec 0 (ta - ty)); [lia | reflexivity].
Qed.

Lemma sorted_idempotent heartbeats :
  wellTimed getTime heartbeats ->
  sorted getTime (sorted getTime heartbeats) = sorted getTime heartbeats.
Proof.
  intro Hwt. apply sort_StronglySorted.
  now apply sorted_StronglySorted.
Qed.

Lemma sorted_not_nil heartbeats :
  heartbeats <> [] -> sorted getTime heartbeats <> [].
Proof.
  intros Hne E. apply Hne.
  apply Permutation_nil. rewrite <- E.
  apply sorted_Permutation.
Qed.

(** X12.  Sorting before the call changes nothing when the timestamps
    parse: the strip of a row is the strip of the heartbeats as they were
    received. *)
Theorem presort_changes_nothing heartbeats :
  wellTimed getTime heartbeats ->
  TableRow.historySegments getTime heartbeats
  = buildHistorySegments getTime heartbeats 24.
Proof.
  intro Hwt. unfold TableRow.historySegments, TableRow.sortedHeartbeats.
  apply build_depends_on_sorted.
  now apply sorted_idempotent.
Qed.

(** X13.  For a monitor that has heartbeats, all with timestamps that
    parse, the columns of the row and the last cell of the strip show
    one and the same heartbeat, and no heartbeat of the monitor is
    later; the status of the row is the status of that heartbeat. *)
Theorem row_shows_latest_heartbeat heartbeats :
  heartbeats <> [] -> wellTimed getTime heartbeats ->
  exists hb,
    TableRow.lastHeartbeat getTime heartbeats = Some hb
    /\ JS.get (TableRow.historySegments getTime heartbeats) 23
       = Some (Some hb)
    /\ TableRow.status getTime heartbeats = Heartbeat.status hb
    /\ In hb heartbeats
    /\ forall hb', In hb' heartbeats -> notLater getTime hb' hb.
Proof.
  intros Hne Hwt.
  destruct (sorted_last_latest getTime heartbeats Hne Hwt)
    as (hb & Hget & Hin & Hmax).
  assert (Hlast : TableRow.lastHeartbeat getTime heartbeats = Some hb).
  { unfold TableRow.lastHeartbeat, TableRow.sortedHeartbeats.
    fold (sorted getTime heartbeats). now rewrite sorted_length. }
  exists hb. split; [assumption |]. split; [| split; [| now split]].
  - unfold TableRow.historySegments, TableRow.sortedHeartbeats.
    fold (sorted getTime heartbeats).
    pose proof (build_last getTime (sorted getTime heartbeats) 24
                  (sorted_not_nil heartbeats Hne) ltac:(lia)) as Hb.
    rewrite build_length in Hb.
    destruct (Z.eqb_spec (JS.length (sorted getTime heartbeats)) 0)
      as [E | _].
    { apply JSFacts.length_zero_iff in E.
      now apply sorted_not_nil in E. }
    rewrite (sorted_idempotent heartbeats Hwt), sorted_length, Hget in Hb.
    exact Hb.
  - unfold TableRow.status. now rewrite Hlast.
Qed.

(** X14.  A monitor for which the heartbeat list has no entry, or an
    empty one, is shown as pending: status 2 with a yellow tag, a dash
    for the status code, and a strip without cells. *)
Theorem row_without_heartbeats heartbeatList monitorId :
  heartbeatList monitorId = None \/ heartbeatList monitorId = Some [] ->
  TableRow.status getTime (TableRow.heartbeats heartbeatList monitorId)
  = 2%Z
  /\ TableRow.tag getTime (TableRow.heartbeats heartbeatList monitorId)
     = Status.getStatusText 2 ++ "<yellow>"
  /\ TableRow.statusCode getTime
       (TableRow.heartbeats heartbeatList monitorId) = "-"
  /\ TableRow.historySegments getTime
       (TableRow.heartbeats heartbeatList monitorId) = [].
Proof.
  intro H.
  assert (E : TableRow.heartbeats heartbeatList monitorId = []).
  { unfold TableRow.heartbeats. now destruct H as [-> | ->]. }
  rewrite E. now repeat split.
Qed.

(** X15.  The strip of a monitor that has heartbeats has 24 cells, and
    every cell holds one of its heartbeats and is coloured by the status
    of that heartbeat: no cell takes the "no data" branch. *)
Theorem strip_cells_hold_heartbeats heartbeats :
  heartbeats <> [] ->
  JS.length (TableRow.historySegments getTime heartbeats) = 24%Z
  /\ forall cell,
       In cell (TableRow.historySegments getTime heartbeats) ->
       exists hb,
         cell = Some hb /\ In hb heartbeats
         /\ TableRow.segmentClass cell
            = Status.getStatusColor (Heartbeat.status hb).
Proof.
  intro Hne. unfold TableRow.historySegments, TableRow.sortedHeartbeats.
  fold (sorted getTime heartbeats). split.
  - rewrite build_length.
    destruct (Z.eqb_spec (JS.length (sorted getTime heartbeats)) 0)
      as [E | _]; [| reflexivity].
    apply JSFacts.length_zero_iff in E. now apply sorted_not_nil in E.
  - intros cell Hin.
    destruct (build_elements getTime _ _ _ Hin) as (hb & -> & Hhb).
    exists hb. split; [reflexivity |]. split; [| reflexivity].
    now apply (Permutation_in _ (sorted_Permutation getTime heartbeats)).
Qed.
End RowFacts.

(** ** Loading the data *)

Section PanelFacts.
Local Open Scope string_scope.
Variable Json : Type.
Variable truthy : Json -> bool.

(** X16.  A run of [fetchData] ends with [loading] off and replaces the
    two documents together or not at all: either both are the documents
    just received and the error is cleared, or both are what they were
    and the error is set. *)
Theorem refresh_is_atomic fetch url (st : Panel.State Json) :
  Panel.loading Json (Panel.fetchData Json fetch url st) = false
  /\ ((exists statusJson heartbeatJson,
         Panel.request Json fetch url = Fulfilled (statusJson, heartbeatJson)
         /\ Panel.fetchData Json fetch url st
            = {| Panel.statusData := Some statusJson;
                 Panel.heartbeatData := Some heartbeatJson;
                 Panel.loading := false;
                 Panel.error := None |})
      \/ (exists reason,
            Panel.request Json fetch url = Rejected reason
            /\ Panel.fetchData Json fetch url st
               = {| Panel.statusData := Panel.statusData Json st;
                    Panel.heartbeatData := Panel.heartbeatData Json st;
                    Panel.loading := false;
                    Panel.error := Some "Failed to load status data" |})).
Proof.
  unfold Panel.fetchData. split; [reflexivity |].
  destruct (Panel.request Json fetch url) as [[statusJson heartbeatJson] | r].
  - left. now exists statusJson, heartbeatJson.
  - right. now exists r.
Qed.

(** The documents are received only when the URL is accepted, both
    requests are answered, both answers are [ok] and both bodies parse;
    the documents are then those two bodies. *)
Lemma request_succeeds_iff fetch url statusJson heartbeatJson :
  Panel.request Json fetch url = Fulfilled (statusJson, heartbeatJson)
  <-> exists statusUrl heartbeatUrl statusRes heartbeatRes,
        Endpoints.derive url = Fulfilled (statusUrl, heartbeatUrl)
        /\ fetch statusUrl = Fulfilled statusRes
        /\ fetch heartbeatUrl = Fulfilled heartbeatRes
        /\ Panel.ok Json statusRes = true
        /\ Panel.ok Json heartbeatRes = true
        /\ Panel.json Json statusRes = Fulfilled statusJson
        /\ Panel.json Json heartbeatRes = Fulfilled heartbeatJson.
Proof.
  unfold Panel.request. split.
  - destruct (Endpoints.derive url) as [[statusUrl heartbeatUrl] | r];
      [| discriminate].
    destruct (fetch statusUrl) as [statusRes | r] eqn:Es; [| discriminate].
    destruct (fetch heartbeatUrl) as [heartbeatRes | r] eqn:Eh;
      [| discriminate].
    destruct (Panel.ok Json statusRes) eqn:Hs; [| discriminate].
    destruct (Panel.ok Json heartbeatRes) eqn:Hh; [| discriminate].
    simpl.
    destruct (Panel.json Json statusRes) as [sj | r] eqn:Js; [| discriminate].
    destruct (Panel.json Json heartbeatRes) as [hj | r] eqn:Jh;
      [| discriminate].
    intro H. injection H as <- <-.
    exists statusUrl, heartbeatUrl, statusRes, heartbeatRes.
    now repeat split.
  - intros (statusUrl & heartbeatUrl & statusRes & heartbeatRes
            & -> & -> & -> & -> & -> & -> & ->).
    reflexivity.
Qed.

(** X17.  After a run of [fetchData] for a URL that is not empty the
    table is rendered exactly when the run received two documents and
    both are truthy; a failed run hides the table even though the
    documents of an earlier run are still held. *)
Theorem table_rendered_iff fetch c rest (st : Panel.State Json) :
  Panel.renders Json truthy (Some (String c rest))
    (Panel.fetchData Json fetch (String c rest) st) = true
  <-> exists statusJson heartbeatJson,
        Panel.request Json fetch (String c rest)
        = Fulfilled (statusJson, heartbeatJson)
        /\ truthy statusJson = true /\ truthy heartbeatJson = true.
Proof.
  unfold Panel.renders, Panel.fetchData.
  destruct (Panel.request Json fetch (String c rest))
    as [[statusJson heartbeatJson] | r]; simpl.
  - split.
    + intro H. exists statusJson, heartbeatJson.
      destruct (truthy statusJson), (truthy heartbeatJson);
        try discriminate H. now repeat split.
    + intros (sj & hj & E & Hs & Hh). injection E as <- <-.
      now rewrite Hs, Hh.
  - split; [discriminate |]. intros (sj & hj & E & _). discriminate E.
Qed.

(** X18.  A URL that is rejected never reaches the network: the state
    after the run is the same whatever the requests would have
    returned. *)
Theorem rejected_url_ignores_network fetch fetch' url reason
  (st : Panel.State Json) :
  Endpoints.derive url = Rejected reason ->
  Panel.fetchData Json fetch url st = Panel.fetchData Json fetch' url st
  /\ Panel.error Json (Panel.fetchData Json fetch url st)
     = Some "Failed to load status data".
Proof.
  intro H. unfold Panel.fetchData, Panel.request. rewrite H.
  now split.
Qed.
End PanelFacts.

(** ** The contents of the strip, slot by slot *)

Section BucketShape.
Variable getTime : string -> option Z.

(** X19.  For a series that is not empty, slot [index] holds the sorted
    sample just before the end of its chunk, the end being clamped to the
    length of the series: [sorted[min((index + 1) * chunkSize, n) - 1]]. *)
Theorem segment_closed_form heartbeats size index :
  heartbeats <> [] -> 0 <= index < size ->
  JS.get (buildHistorySegments getTime heartbeats size) index
  = Some (JS.get (sorted getTime heartbeats)
            (Z.min ((index + 1) * chunkSize getTime heartbeats size)
                   (JS.length heartbeats) - 1)).
Proof.
  intros Hne Hidx.
  rewrite build_nonempty by assumption.
  rewrite JSFacts.from_get by assumption.
  now rewrite segment_index.
Qed.

Lemma chunkSize_short heartbeats size :
  heartbeats <> [] -> JS.length heartbeats <= size ->
  chunkSize getTime heartbeats size = 1.
Proof.
  intros Hne Hshort.
  assert (Hn : JS.length heartbeats <> 0)
    by (now rewrite JSFacts.length_zero_iff).
  pose proof (JSFacts.length_nonneg heartbeats) as Hn'.
  pose proof (chunkSize_bounds getTime heartbeats size ltac:(lia)) as Hb.
  nia.
Qed.

(** X20.  A series that is not empty and has no more samples than there
    are buckets is shown whole, in time order, one sample per slot, and
    the slots left over on the right repeat its last sample. *)
Theorem short_series_padded heartbeats size :
  heartbeats <> [] -> JS.length heartbeats <= size ->
  exists last,
    JS.get (sorted getTime heartbeats) (JS.length heartbeats - 1) = Some last
    /\ buildHistorySegments getTime heartbeats size
       = map Some (sorted getTime heartbeats)
         ++ repeat (Some last) (Z.to_nat (size - JS.length heartbeats)).
Proof.
  intros Hne Hshort.
  assert (Hn : JS.length heartbeats <> 0)
    by (now rewrite JSFacts.length_zero_iff).
  pose proof (JSFacts.length_nonneg heartbeats) as Hn'.
  pose proof (sorted_length getTime heartbeats) as Hlen.
  destruct (JSFacts.get_in_range (sorted getTime heartbeats)
              (JS.length heartbeats - 1)) as [last Hlast];
    [rewrite Hlen; lia |].
  exists last. split; [assumption |].
  rewrite build_nonempty by assumption.
  apply nth_error_ext. intro k.
  unfold JS.from. rewrite nth_error_map, nth_error_seq.
  unfold JS.length in Hlen, Hshort, Hn, Hn', Hlast.
  destruct (Nat.ltb_spec k (Z.to_nat size)) as [Hk | Hk];
    cbn [option_map Nat.add].
  - rewrite segment_index by (assumption || lia).
    rewrite (chunkSize_short heartbeats size Hne Hshort).
    unfold JS.length.
    destruct (Nat.ltb_spec k (List.length heartbeats)) as [Hin | Hout].
    + rewrite nth_error_app1 by (rewrite length_map; lia).
      rewrite nth_error_map.
      rewrite JSFacts.get_nth by lia.
      replace (Z.to_nat (Z.min ((Z.of_nat k + 1) * 1)
                               (Z.of_nat (List.length heartbeats)) - 1))
        with k by lia.
      destruct (nth_error (sorted getTime heartbeats) k) eqn:E;
        [reflexivity |].
      apply nth_error_None in E. lia.
    + rewrite nth_error_app2 by (rewrite length_map; lia).
      rewrite nth_error_repeat by (rewrite length_map; lia).
      replace (Z.min ((Z.of_nat k + 1) * 1)
                     (Z.of_nat (List.length heartbeats)) - 1)
        with (Z.of_nat (List.length heartbeats) - 1) by lia.
      now rewrite Hlast.
  - symmetry. apply nth_error_None.
    rewrite length_app, length_map, repeat_length.
    unfold JS.length. lia.
Qed.
End BucketShape.

(** ** The sort of lines 232-234 *)

Section SortFacts.
Variable getTime : string -> option Z.

(** Inserting a sample does not disturb the samples of any one time
    value: it moves only past samples that are strictly earlier. *)
Lemma insert_filter_takenAt t x arr :
  filter (takenAt getTime t) (JS.insert (byTime getTime) x arr)
  = filter (takenAt getTime t) (x :: arr).
Proof.
  induction arr as [| y rest IH]; [reflexivity |].
  cbn [JS.insert].
  destruct (Z.ltb_spec 0 (JS.SortCompare (byTime getTime) x y)) as [Hgt | _];
    [| reflexivity].
  cbn [filter] in *. rewrite IH.
  unfold JS.SortCompare, byTime, takenAt in *.
  destruct (getTime (Heartbeat.time x)) as [tx |]; [| lia].
  destruct (getTime (Heartbeat.time y)) as [ty |]; [| lia].
  destruct (Z.eqb_spec tx t), (Z.eqb_spec ty t); try reflexivity. lia.
Qed.

(** X21.  When the timestamps parse, the sorted series has the samples
    of the input, each as often as the input has it, in an order in
    which no sample is later than one that follows it. *)
Theorem sorted_ordered_permutation heartbeats :
  wellTimed getTime heartbeats ->
  Permutation (sorted getTime heartbeats) heartbeats
  /\ StronglySorted (notLater getTime) (sorted getTime heartbeats).
Proof.
  intro Hwt. split.
  - apply sorted_Permutation.
  - now apply sorted_StronglySorted.
Qed.

(** X22.  The sort is stable: when the timestamps parse, so that the
    order is the same in every engine, the samples taken at one and the
    same time value stand in the sorted series in the order in which the
    input has them. *)
Theorem sort_is_stable heartbeats t :
  wellTimed getTime heartbeats ->
  filter (takenAt getTime t) (sorted getTime heartbeats)
  = filter (takenAt getTime t) heartbeats.
Proof.
  intros _. unfold sorted, JS.sort.
  induction heartbeats as [| x rest IH]; [reflexivity |].
  cbn [fold_right]. rewrite insert_filter_takenAt.
  cbn [filter]. now rewrite IH.
Qed.
End SortFacts.

(** ** The further properties on concrete inputs *)

Section Instances.
Local Open Scope string_scope.
Import Endpoints StatusCode.

(** X1 on a base URL that ends with a slash. *)
Lemma base_url_endpoints_witness :
  derive "https://status.example.com/"
  = Fulfilled ("https://status.example.com/api/status-page/0",
               "https://status.example.com/api/status-page/heartbeat/0").
Proof.
  apply (base_url_endpoints "https://status.example.com/"). reflexivity.
Defined.

(** X2 on the page [main]. *)
Lemma status_page_endpoints_witness :
  derive ("https://status.example.com" ++ "/api/status-page/" ++ "main")
  = Fulfilled
      ("https://status.example.com" ++ "/api/status-page/" ++ "main",
       "https://status.example.com" ++ "/api/status-page/heartbeat/"
         ++ "main").
Proof.
  apply (status_page_endpoints "https://status.example.com" "main").
  - discriminate.
  - reflexivity.
Defined.

(** X3 on a base URL. *)
Lemma trailing_slash_ignored_witness :
  derive ("https://status.example.com" ++ "/")
  = derive "https://status.example.com".
Proof.
  apply (trailing_slash_ignored "https://status.example.com").
  apply (StrFacts.slashFree_no_trailing_slash "https://status.example." "com").
  - discriminate.
  - reflexivity.
Defined.

(** X5 on the URL of the page [main], written with a final slash. *)
Lemma endpoints_same_page_witness :
  exists pre slug,
    "https://status.example.com/api/status-page/main"
    = pre ++ "/api/status-page/" ++ slug
    /\ "https://status.example.com/api/status-page/heartbeat/main"
       = pre ++ "/api/status-page/heartbeat/" ++ slug
    /\ slug <> "" /\ Str.slashFree slug = true.
Proof.
  apply (endpoints_same_page
           "https://status.example.com/api/status-page/main/").
  reflexivity.
Defined.

(** X6 on a message that ends with its code. *)
Lemma status_code_is_leftmost_witness :
  exists pre0 code0 post0,
    "Request failed with status code 503" = pre0 ++ code0 ++ post0
    /\ standsAlone pre0 code0 post0
    /\ getStatusCode (Some "Request failed with status code 503") = code0
    /\ (String.length pre0
        <= String.length "Request failed with status code ")%nat.
Proof.
  apply (status_code_is_leftmost "Request failed with status code 503"
           "Request failed with status code " "503" "").
  - reflexivity.
  - split; [| split; reflexivity].
    exists "5"%char, "0"%char, "3"%char. now repeat split.
Defined.

(** X7 on a message too short to hold a code. *)
Lemma status_code_absent_witness : getStatusCode (Some "OK") = "OK".
Proof.
  apply (status_code_absent "OK").
  - discriminate.
  - intros pre code post E ((a & b & c & -> & _) & _).
    apply (f_equal String.length) in E.
    rewrite StrFacts.length_append in E. simpl in E. lia.
Defined.

(** X12 on three shuffled samples. *)
Lemma presort_changes_nothing_witness :
  TableRow.historySegments isoTime three
  = buildHistorySegments isoTime three 24.
Proof.
  apply (presort_changes_nothing isoTime three). exact wellTimed_three.
Defined.

(** X13 on three shuffled samples. *)
Lemma row_shows_latest_heartbeat_witness :
  exists hb,
    TableRow.lastHeartbeat isoTime three = Some hb
    /\ JS.get (TableRow.historySegments isoTime three) 23 = Some (Some hb)
    /\ TableRow.status isoTime three = Heartbeat.status hb
    /\ In hb three
    /\ forall hb', In hb' three -> notLater isoTime hb' hb.
Proof.
  apply (row_shows_latest_heartbeat isoTime three).
  - discriminate.
  - exact wellTimed_three.
Defined.

(** X14 on a heartbeat list without entries. *)
Lemma row_without_heartbeats_witness :
  TableRow.status isoTime (TableRow.heartbeats (fun _ => None) 7) = 2%Z
  /\ TableRow.tag isoTime (TableRow.heartbeats (fun _ => None) 7)
     = Status.getStatusText 2 ++ "<yellow>"
  /\ TableRow.statusCode isoTime (TableRow.heartbeats (fun _ => None) 7)
     = "-"
  /\ TableRow.historySegments isoTime (TableRow.heartbeats (fun _ => None) 7)
     = [].
Proof.
  apply (row_without_heartbeats isoTime (fun _ => None) 7%Z).
  left. reflexivity.
Defined.

(** X15 on three samples. *)
Lemma strip_cells_hold_heartbeats_witness :
  JS.length (TableRow.historySegments isoTime three) = 24%Z
  /\ forall cell,
       In cell (TableRow.historySegments isoTime three) ->
       exists hb,
         cell = Some hb /\ In hb three
         /\ TableRow.segmentClass cell
            = Status.getStatusColor (Heartbeat.status hb).
Proof.
  apply (strip_cells_hold_heartbeats isoTime three). discriminate.
Defined.

(** X18 on the URL of a heartbeat endpoint, which is rejected. *)
Lemma rejected_url_ignores_network_witness :
  Panel.fetchData string Network.online
    "https://status.example.com/api/status-page/heartbeat/main"
    (Panel.initial string)
  = Panel.fetchData string Network.offline
      "https://status.example.com/api/status-page/heartbeat/main"
      (Panel.initial string)
  /\ Panel.error string
       (Panel.fetchData string Network.online
          "https://status.example.com/api/status-page/heartbeat/main"
          (Panel.initial string))
     = Some "Failed to load status data".
Proof.
  apply (rejected_url_ignores_network string Network.online Network.offline
           "https://status.example.com/api/status-page/heartbeat/main"
           "Invalid Uptime Kuma status page URL").
  reflexivity.
Defined.

(** X19 on five samples, four buckets, slot 1. *)
Lemma segment_closed_form_witness :
  JS.get (buildHistorySegments isoTime five 4) 1
  = Some (JS.get (sorted isoTime five)
            (Z.min ((1 + 1) * chunkSize isoTime five 4) (JS.length five) - 1)).
Proof.
  apply (segment_closed_form isoTime five 4 1).
  - discriminate.
  - lia.
Defined.

(** X20 on three samples and five buckets. *)
Lemma short_series_padded_witness :
  exists last,
    JS.get (sorted isoTime three) (JS.length three - 1) = Some last
    /\ buildHistorySegments isoTime three 5
       = (map Some (sorted isoTime three)
          ++ repeat (Some last) (Z.to_nat (5 - JS.length three)))%list.
Proof.
  apply (short_series_padded isoTime three 5).
  - discriminate.
  - vm_compute. discriminate.
Defined.

(** X21 on five shuffled samples. *)
Lemma sorted_ordered_permutation_witness :
  Permutation (sorted isoTime five) five
  /\ StronglySorted (notLater isoTime) (sorted isoTime five).
Proof.
  apply (sorted_ordered_permutation isoTime five). exact wellTimed_five.
Defined.

(** X22 on two samples taken at the same instant, with a third between
    them. *)
Lemma sort_is_stable_witness :
  filter (takenAt isoTime 1704067209000) (sorted isoTime [tieDown; up1; tieUp])
  = filter (takenAt isoTime 1704067209000) [tieDown; up1; tieUp].
Proof.
  apply (sort_is_stable isoTime [tieDown; up1; tieUp] 1704067209000).
  repeat constructor; vm_compute; discriminate.
Defined.
End Instances.
